(** * chess-zobrist: the Polyglot position hasher of [index.ts]

    A shallow embedding of the [ChessHasher] class and of the JavaScript
    primitives it relies on, followed by the properties of [hashPosition].

    Conventions of the embedding:
    - a JavaScript string is a [string]; each [ascii] is one code unit
      (the code units below 256: a string with any other is outside the
      pattern of [hashPosition] anyway);
    - a JavaScript number is a [number]: an integer or [NaN] (no other
      value is ever produced by this program);
    - the four private instance fields are the record [ChessHasher], passed
      in and out of every method that touches them;
    - a [TypeError] raised by the runtime is the outcome [Throw]. *)

From Stdlib Require Import ZArith List String Ascii Bool Lia Permutation.
Import ListNotations.

Local Open Scope string_scope.
Local Open Scope Z_scope.

(** ** JavaScript primitives used by the class *)

Module JS.

(** Numbers: every number handled by the class is an integer, or the
    [NaN] that [parseInt] returns on a string with no digit. *)
Inductive number : Type :=
| Num (z : Z)
| NaN.

(** [ToInt32]: the conversion applied to both operands of [^]. *)
Definition toInt32 (n : number) : Z :=
  match n with
  | NaN => 0
  | Num z => let m := z mod 2 ^ 32 in
             if m <? 2 ^ 31 then m else m - 2 ^ 32
  end.

(** [a ^ b] *)
Definition bitxor (a b : number) : number :=
  Num (Z.lxor (toInt32 a) (toInt32 b)).

Definition charCode (c : ascii) : Z := Z.of_N (N_of_ascii c).

(** [s.length] *)
Definition length (s : string) : Z := Z.of_nat (String.length s).

(** [s.charCodeAt(j)], for [j] inside the string. *)
Definition charCodeAt (s : string) (j : nat) : option Z :=
  option_map charCode (String.get j s).

(** [s.includes(c)] for a one-character needle. *)
Fixpoint includes (s : string) (c : ascii) : bool :=
  match s with
  | EmptyString => false
  | String x s' => Ascii.eqb x c || includes s' c
  end.

(** [s.split(sep)] for a one-character separator: the empty string
    splits into one empty piece. *)
Fixpoint split (sep : ascii) (s : string) : list string :=
  match s with
  | EmptyString => [EmptyString]
  | String c s' =>
      if Ascii.eqb c sep then EmptyString :: split sep s'
      else match split sep s' with
           | [] => [String c EmptyString]
           | hd :: tl => String c hd :: tl
           end
  end.

(** White space and line terminators among the code units below 256. *)
Definition isWhiteSpace (c : ascii) : bool :=
  let n := charCode c in
  ((9 <=? n) && (n <=? 13)) || (n =? 32) || (n =? 160).

Fixpoint trimStart (s : string) : string :=
  match s with
  | EmptyString => EmptyString
  | String c s' => if isWhiteSpace c then trimStart s' else s
  end.

Fixpoint trimEnd (s : string) : string :=
  match s with
  | EmptyString => EmptyString
  | String c s' =>
      match trimEnd s' with
      | EmptyString => if isWhiteSpace c then EmptyString
                       else String c EmptyString
      | t => String c t
      end
  end.

(** [s.trim()] *)
Definition trim (s : string) : string := trimEnd (trimStart s).

(** [s.substring(0, 2)] and [s.substring(2)] *)
Definition substring02 (s : string) : string := String.substring 0 2 s.
Definition substring2 (s : string) : string :=
  String.substring 2 (String.length s - 2) s.

Definition hexDigit (c : ascii) : option Z :=
  let n := charCode c in
  if (48 <=? n) && (n <=? 57) then Some (n - 48)
  else if (97 <=? n) && (n <=? 102) then Some (n - 87)
  else if (65 <=? n) && (n <=? 70) then Some (n - 55)
  else None.

(** The longest prefix of hexadecimal digits, as a number. *)
Fixpoint parseDigits (s : string) (acc : option Z) : option Z :=
  match s with
  | EmptyString => acc
  | String c s' =>
      match hexDigit c with
      | None => acc
      | Some d => parseDigits s' (Some (16 * match acc with
                                             | Some a => a
                                             | None => 0
                                             end + d))
      end
  end.

(** [parseInt(s, 16)]: leading white space is skipped, a sign is read,
    a [0x] or [0X] prefix is dropped, and the longest run of digits is
    converted; no digit at all gives [NaN]. *)
Definition parseInt16 (s : string) : number :=
  let s1 := trimStart s in
  let '(sign, s2) :=
    match s1 with
    | String c t => if Ascii.eqb c "-" then (-1, t)
                    else if Ascii.eqb c "+" then (1, t)
                    else (1, s1)
    | EmptyString => (1, s1)
    end in
  let s3 :=
    match s2 with
    | String c0 (String c1 t) =>
        if Ascii.eqb c0 "0" && (Ascii.eqb c1 "x" || Ascii.eqb c1 "X")
        then t else s2
    | _ => s2
    end in
  match parseDigits s3 None with
  | None => NaN
  | Some v => Num (sign * v)
  end.

Definition hexChar (d : Z) : ascii :=
  ascii_of_N (Z.to_N (if d <? 10 then 48 + d else 87 + d)).

Fixpoint hexDigits (fuel : nat) (z : Z) (acc : string) : string :=
  match fuel with
  | O => acc
  | S f =>
      let acc' := String (hexChar (z mod 16)) acc in
      if z / 16 =? 0 then acc' else hexDigits f (z / 16) acc'
  end.

(** [n.toString(16)] *)
Definition toString16 (n : number) : string :=
  match n with
  | NaN => "NaN"
  | Num z =>
      if z <? 0
      then String "-" (hexDigits (S (Z.to_nat (Z.log2 (- z)))) (- z) "")
      else hexDigits (S (Z.to_nat (Z.log2 z))) z ""
  end.

(** [s.padStart(2, '0')] *)
Definition padStart2 (s : string) : string :=
  match s with
  | EmptyString => "00"
  | String c EmptyString => String "0" s
  | _ => s
  end.

(** [strs.join('')] *)
Definition join (l : list string) : string :=
  fold_right String.append EmptyString l.

End JS.

(** ** Regular expressions

    The fragment of the regular-expression language that the validation
    pattern uses.  The pattern is anchored at both ends, so [test] decides
    membership of the whole string in the language of the expression; it is
    computed with derivatives. *)

Module RegExp.

Inductive crange : Type :=
| Chr (c : ascii)              (* one character *)
| Rng (lo hi : ascii).         (* lo-hi *)

Definition inRange (c : ascii) (r : crange) : bool :=
  match r with
  | Chr x => Ascii.eqb c x
  | Rng lo hi => (JS.charCode lo <=? JS.charCode c)
                 && (JS.charCode c <=? JS.charCode hi)
  end.

Definition inClass (l : list crange) (c : ascii) : bool :=
  existsb (inRange c) l.

Inductive regex : Type :=
| Void                         (* matches nothing *)
| Eps                          (* matches the empty string *)
| Cls (l : list crange)        (* [...] *)
| Cat (r1 r2 : regex)
| Alt (r1 r2 : regex)
| Star (r : regex).

(** [r+], [r{n}], [r{0,n}] and [r{lo,hi}] *)
Definition Plus (r : regex) : regex := Cat r (Star r).

Fixpoint Times (n : nat) (r : regex) : regex :=
  match n with
  | O => Eps
  | S n' => Cat r (Times n' r)
  end.

Fixpoint UpTo (n : nat) (r : regex) : regex :=
  match n with
  | O => Eps
  | S n' => Alt Eps (Cat r (UpTo n' r))
  end.

Definition Between (lo hi : nat) (r : regex) : regex :=
  Cat (Times lo r) (UpTo (hi - lo) r).

Definition Lit (c : ascii) : regex := Cls [Chr c].

Fixpoint nullable (r : regex) : bool :=
  match r with
  | Void => false
  | Eps => true
  | Cls _ => false
  | Cat r1 r2 => nullable r1 && nullable r2
  | Alt r1 r2 => nullable r1 || nullable r2
  | Star _ => true
  end.

Fixpoint deriv (c : ascii) (r : regex) : regex :=
  match r with
  | Void => Void
  | Eps => Void
  | Cls l => if inClass l c then Eps else Void
  | Cat r1 r2 =>
      if nullable r1 then Alt (Cat (deriv c r1) r2) (deriv c r2)
      else Cat (deriv c r1) r2
  | Alt r1 r2 => Alt (deriv c r1) (deriv c r2)
  | Star r1 => Cat (deriv c r1) (Star r1)
  end.

(** [/^r$/.test(s)] *)
Fixpoint test (r : regex) (s : string) : bool :=
  match s with
  | EmptyString => nullable r
  | String c s' => test (deriv c r) s'
  end.

(** The language of an expression. *)
Inductive Matches : regex -> string -> Prop :=
| MEps : Matches Eps ""
| MCls l c : inClass l c = true -> Matches (Cls l) (String c "")
| MCat r1 r2 s1 s2 :
    Matches r1 s1 -> Matches r2 s2 -> Matches (Cat r1 r2) (s1 ++ s2)
| MAltL r1 r2 s : Matches r1 s -> Matches (Alt r1 r2) s
| MAltR r1 r2 s : Matches r2 s -> Matches (Alt r1 r2) s
| MStar0 r : Matches (Star r) ""
| MStarS r s1 s2 :
    Matches r s1 -> Matches (Star r) s2 -> Matches (Star r) (s1 ++ s2).

End RegExp.

(** ** The class [ChessHasher] *)

(** What a method call produces: a value, or the [TypeError] that the
    runtime raises when [parseHexString] reads [.length] of [undefined];
    [num] is the table index whose entry was missing. *)
Inductive exn : Type :=
| TypeError (num : Z).

Inductive outcome (A : Type) : Type :=
| Ret (a : A)
| Throw (e : exn).

Arguments Ret {A} a.
Arguments Throw {A} e.

Definition bindO {A B : Type} (o : outcome A) (k : A -> outcome B)
  : outcome B :=
  match o with
  | Ret a => k a
  | Throw e => Throw e
  end.

(** [type Hash = number[]] *)
Definition Hash : Type := list JS.number.

(** The private instance fields. *)
Record ChessHasher : Type := mkHasher {
  error : bool;
  enPasRank : Z;
  enPasFile : Z;
  pawnNearby : bool
}.

(** Field initialisers of the class: the state of [new ChessHasher()]. *)
Definition newChessHasher : ChessHasher :=
  {| error := false; enPasRank := -1; enPasFile := -1; pawnNearby := false |}.

Definition set_error (this : ChessHasher) (b : bool) : ChessHasher :=
  {| error := b; enPasRank := enPasRank this;
     enPasFile := enPasFile this; pawnNearby := pawnNearby this |}.

Definition set_pawnNearby (this : ChessHasher) (b : bool) : ChessHasher :=
  {| error := error this; enPasRank := enPasRank this;
     enPasFile := enPasFile this; pawnNearby := b |}.

Definition set_enPasRank (this : ChessHasher) (r : Z) : ChessHasher :=
  {| error := error this; enPasRank := r;
     enPasFile := enPasFile this; pawnNearby := pawnNearby this |}.

Definition set_enPasFile (this : ChessHasher) (f : Z) : ChessHasher :=
  {| error := error this; enPasRank := enPasRank this;
     enPasFile := f; pawnNearby := pawnNearby this |}.

(** A method of the instance: it reads and writes the fields, and either
    returns or throws; the fields written before a throw stay written. *)
Definition M (A : Type) : Type := ChessHasher -> outcome A * ChessHasher.

Definition ret {A : Type} (a : A) : M A := fun this => (Ret a, this).

Definition lift {A : Type} (o : outcome A) : M A := fun this => (o, this).

Definition bind {A B : Type} (m : M A) (k : A -> M B) : M B :=
  fun this =>
    match m this with
    | (Ret a, this') => k a this'
    | (Throw e, this') => (Throw e, this')
    end.

Definition get {A : Type} (f : ChessHasher -> A) : M A :=
  fun this => (Ret (f this), this).

Definition modify (f : ChessHasher -> ChessHasher) : M unit :=
  fun this => (Ret tt, f this).

(** [if (cond) m], where [cond] reads the fields. *)
Definition when (cond : ChessHasher -> bool) (m : M unit) : M unit :=
  fun this => if cond this then m this else (Ret tt, this).

Declare Scope hasher_scope.
Delimit Scope hasher_scope with hasher.
Notation "x <- m ;; k" := (bind m (fun x => k))
  (at level 61, m at next level, right associativity) : hasher_scope.
Notation "m ;;; k" := (bind m (fun _ => k))
  (at level 61, right associativity) : hasher_scope.

(** [parseHexString]: two characters at a time while at least two remain.
    The recursion is on a bound that the length of the string provides. *)
Fixpoint parseHexString_loop (fuel : nat) (remaining : string) : Hash :=
  match fuel with
  | O => []
  | S fuel' =>
      if 2 <=? JS.length remaining
      then JS.parseInt16 (JS.substring02 remaining)
             :: parseHexString_loop fuel' (JS.substring2 remaining)
      else []
  end.

Definition parseHexString (str : string) : Hash :=
  parseHexString_loop (String.length str) str.

(** [createHexString] *)
Definition createHexString (arr : Hash) : string :=
  JS.join (map (fun byte => JS.padStart2 (JS.toString16 byte)) arr).

(** [xorArrays]: as long as the shorter of the two arrays. *)
Fixpoint xorArrays (a b : Hash) : Hash :=
  match a, b with
  | x :: a', y :: b' => JS.bitxor x y :: xorArrays a' b'
  | _, _ => []
  end.

(** [ChessHasher.emptyHash] *)
Definition emptyHash : Hash := parseHexString "0000000000000000".

Definition wrongPosition : string := "Wrong position".

Section Hasher.

(** [ChessHasher.hashes], the table imported from [./hashes]. *)
Variable hashes : list string.

Local Open Scope hasher_scope.

(** [ChessHasher.hashes[num]]: [undefined] outside the table. *)
Definition hashesAt (num : Z) : option string :=
  if num <? 0 then None else nth_error hashes (Z.to_nat num).

(** [xorHash]: on an index outside the table, [parseHexString] receives
    [undefined] and its first [remaining.length] raises. *)
Definition xorHash (arr : Hash) (num : Z) : outcome Hash :=
  match hashesAt num with
  | Some str => Ret (xorArrays arr (parseHexString str))
  | None => Throw (TypeError num)
  end.

(** [parseEnPassant]; [!str] holds of the empty string. *)
Definition parseEnPassant (str : string) : M unit :=
  if String.eqb str "" || String.eqb str "-" then ret tt
  else if negb (JS.length str =? 2) then modify (fun t => set_error t true)
  else
    match JS.charCodeAt str 0, JS.charCodeAt str 1 with
    | Some c0, Some c1 =>
        let f := c0 - 97 in
        let r := c1 - 49 in
        if (f <? 0) || (f >? 7) || (r <? 0) || (r >? 7)
        then modify (fun t => set_error t true)
        else modify (fun t => set_enPasFile t f) ;;;
             modify (fun t => set_enPasRank t r)
    | _, _ => ret tt   (* not reached: [str] has two characters *)
    end.

(** [hashSide] *)
Definition hashSide (arr : Hash) (str : string) : outcome Hash :=
  if String.eqb str "w" then xorHash arr 780 else Ret arr.

(** [hashCastling] *)
Definition hashCastling (arr : Hash) (str : string) : outcome Hash :=
  if String.eqb str "-" then Ret arr
  else
    bindO (if JS.includes str "K" then xorHash arr 768 else Ret arr)
      (fun arr =>
    bindO (if JS.includes str "Q" then xorHash arr 769 else Ret arr)
      (fun arr =>
    bindO (if JS.includes str "k" then xorHash arr 770 else Ret arr)
      (fun arr =>
    if JS.includes str "q" then xorHash arr 771 else Ret arr))).

(** How one turn of the inner loop of [hashPieces] ends: at [break], with
    the accumulator and the file counter, or at the [return arr] of the
    [default] case. *)
Inductive turn : Type :=
| Break (arr : Hash) (file : Z)
| Return (arr : Hash).

(** The two tests that follow a pawn of the colour whose capture rank is
    [capRank] for a target on rank [epRank]. *)
Definition pawnCheck (epRank capRank rank file : Z) : M unit :=
  when (fun this => (enPasRank this =? epRank) && (rank =? capRank)
                    && (enPasFile this >? 0) && (file =? enPasFile this - 1))
       (modify (fun t => set_pawnNearby t true)) ;;;
  when (fun this => (enPasRank this =? epRank) && (rank =? capRank)
                    && (enPasFile this <? 7) && (file =? enPasFile this + 1))
       (modify (fun t => set_pawnNearby t true)).

(** The [switch] on [ranks[i][j]]. *)
Definition hashPieces_switch (c : ascii) (rank : Z) (arr : Hash) (file : Z)
  : M turn :=
  let piece (num : Z) : M turn :=
    arr' <- lift (xorHash arr num) ;; ret (Break arr' (file + 1)) in
  if Ascii.eqb c "p" then
    arr' <- lift (xorHash arr (8 * rank + file)) ;;
    pawnCheck 2 3 rank file ;;;
    ret (Break arr' (file + 1))
  else if Ascii.eqb c "P" then
    arr' <- lift (xorHash arr (64 * 1 + 8 * rank + file)) ;;
    pawnCheck 5 4 rank file ;;;
    ret (Break arr' (file + 1))
  else if Ascii.eqb c "n" then piece (64 * 2 + 8 * rank + file)
  else if Ascii.eqb c "N" then piece (64 * 3 + 8 * rank + file)
  else if Ascii.eqb c "b" then piece (64 * 4 + 8 * rank + file)
  else if Ascii.eqb c "B" then piece (64 * 5 + 8 * rank + file)
  else if Ascii.eqb c "r" then piece (64 * 6 + 8 * rank + file)
  else if Ascii.eqb c "R" then piece (64 * 7 + 8 * rank + file)
  else if Ascii.eqb c "q" then piece (64 * 8 + 8 * rank + file)
  else if Ascii.eqb c "Q" then piece (64 * 9 + 8 * rank + file)
  else if Ascii.eqb c "k" then piece (64 * 10 + 8 * rank + file)
  else if Ascii.eqb c "K" then piece (64 * 11 + 8 * rank + file)
  else if Ascii.eqb c "0" || Ascii.eqb c "1" || Ascii.eqb c "2"
          || Ascii.eqb c "3" || Ascii.eqb c "4" || Ascii.eqb c "5"
          || Ascii.eqb c "6" || Ascii.eqb c "7" || Ascii.eqb c "8" then
    let r := JS.charCode c - 48 in
    ret (Break arr (file + r))
  else
    modify (fun t => set_error t true) ;;;
    ret (Return arr).

(** The loop on [j], over the characters of [ranks[i]]. *)
Fixpoint hashPieces_rank (s : string) (rank : Z) (arr : Hash) (file : Z)
  : M turn :=
  match s with
  | EmptyString => ret (Break arr file)
  | String c s' =>
      t <- hashPieces_switch c rank arr file ;;
      match t with
      | Break arr' file' => hashPieces_rank s' rank arr' file'
      | Return arr' => ret (Return arr')
      end
  end.

(** The loop on [i]: [ranks] holds the ranks from index [i] on (there are
    eight in all when the loop starts). *)
Fixpoint hashPieces_ranks (ranks : list string) (i : Z) (arr : Hash)
  : M Hash :=
  match ranks with
  | [] => ret arr
  | s :: ranks' =>
      let file := 0 in
      let rank := 7 - i in
      t <- hashPieces_rank s rank arr file ;;
      match t with
      | Return arr' => ret arr'
      | Break arr' file' =>
          (if negb (file' =? 8)
           then modify (fun t => set_error t true) else ret tt) ;;;
          hashPieces_ranks ranks' (i + 1) arr'
      end
  end.

(** [hashPieces] *)
Definition hashPieces (arr : Hash) (str : string) : M Hash :=
  let ranks := JS.split "/" str in
  if negb (Z.of_nat (List.length ranks) =? 8) then
    modify (fun t => set_error t true) ;;; ret arr
  else hashPieces_ranks ranks 0 arr.

(** The pattern of [hashPosition]:
    [/^([rnbqkpRNBQKP1-8]+\/){7}[rnbqkpRNBQKP1-8]+ [wb] [KQkq-]{1,4} [a-h1-8-]{1,2} \d+ \d+$/] *)
Import RegExp.

Definition boardClass : list crange :=
  [Chr "r"; Chr "n"; Chr "b"; Chr "q"; Chr "k"; Chr "p";
   Chr "R"; Chr "N"; Chr "B"; Chr "Q"; Chr "K"; Chr "P"; Rng "1" "8"].
Definition sideClass : list crange := [Chr "w"; Chr "b"].
Definition castlingClass : list crange :=
  [Chr "K"; Chr "Q"; Chr "k"; Chr "q"; Chr "-"].
Definition enPassantClass : list crange :=
  [Rng "a" "h"; Rng "1" "8"; Chr "-"].
Definition digitClass : list crange := [Rng "0" "9"].

Definition validFenPattern : regex :=
  Cat (Times 7 (Cat (Plus (Cls boardClass)) (Lit "/")))
 (Cat (Plus (Cls boardClass))
 (Cat (Lit " ")
 (Cat (Cls sideClass)
 (Cat (Lit " ")
 (Cat (Between 1 4 (Cls castlingClass))
 (Cat (Lit " ")
 (Cat (Between 1 2 (Cls enPassantClass))
 (Cat (Lit " ")
 (Cat (Plus (Cls digitClass))
 (Cat (Lit " ")
      (Plus (Cls digitClass)))))))))))).

(** [hashPosition] *)
Definition hashPosition (fen : string) : M string :=
  modify (fun t => set_error t false) ;;;
  modify (fun t => set_enPasRank t (-1)) ;;;
  modify (fun t => set_enPasFile t (-1)) ;;;
  modify (fun t => set_pawnNearby t false) ;;;
  if negb (test validFenPattern fen) then ret wrongPosition
  else
    match JS.split " " (JS.trim fen) with
    | pieces :: color :: castling :: enPassant :: _rest =>
        if String.eqb pieces "" || String.eqb color ""
           || String.eqb castling "" || String.eqb enPassant ""
        then modify (fun t => set_error t true) ;;; ret wrongPosition
        else
          let hash := emptyHash in
          parseEnPassant enPassant ;;;
          hash <- hashPieces hash pieces ;;
          nearby <- get pawnNearby ;;
          hash <- (if nearby : bool
                   then f <- get enPasFile ;; lift (xorHash hash (772 + f))
                   else ret hash) ;;
          hash <- lift (hashSide hash color) ;;
          hash <- lift (hashCastling hash castling) ;;
          err <- get error ;;
          ret (if err : bool then wrongPosition else createHexString hash)
    | _ =>
        (* one of the four destructured fields is [undefined] *)
        modify (fun t => set_error t true) ;;; ret wrongPosition
    end.

End Hasher.

(** * The vocabulary of the properties *)

(** ** Strings and fields *)

(** Every character of [s] satisfies [p]. *)
Fixpoint allChars (p : ascii -> bool) (s : string) : bool :=
  match s with
  | EmptyString => true
  | String c s' => p c && allChars p s'
  end.

(** [sep] does not occur in [s]. *)
Definition noChar (sep : ascii) (s : string) : bool :=
  allChars (fun c => negb (Ascii.eqb c sep)) s.

(** [groups.join(sep)] *)
Fixpoint joinWith (sep : ascii) (l : list string) : string :=
  match l with
  | [] => ""
  | [x] => x
  | x :: l' => x ++ String sep (joinWith sep l')
  end.

(** [s] is one or more characters of the class [cls]. *)
Definition plusOf (cls : list RegExp.crange) (s : string) : bool :=
  negb (String.eqb s "") && allChars (RegExp.inClass cls) s.

(** [s] is [lo] to [hi] characters of the class [cls]. *)
Definition betweenOf (cls : list RegExp.crange) (lo hi : nat) (s : string)
  : bool :=
  allChars (RegExp.inClass cls) s
  && (lo <=? String.length s)%nat && (String.length s <=? hi)%nat.

(** The six fields of a FEN string, in one string. *)
Definition fenOf (pieces color castling enPassant half full : string)
  : string :=
  pieces ++ " " ++ color ++ " " ++ castling ++ " " ++ enPassant
         ++ " " ++ half ++ " " ++ full.

(** The shape that [validFenPattern] asks of the fields: eight rank
    groups, one side letter, one to four castling characters, one or two
    en-passant characters, and two numbers. *)
Definition fieldsOk (ranks : list string)
  (color castling enPassant half full : string) : bool :=
  (List.length ranks =? 8)%nat
  && forallb (plusOf boardClass) ranks
  && betweenOf sideClass 1 1 color
  && betweenOf castlingClass 1 4 castling
  && betweenOf enPassantClass 1 2 enPassant
  && plusOf digitClass half
  && plusOf digitClass full.

(** ** The board as the specification describes it

    These definitions follow the words of the specification, not the code:
    they are what the board decoder is compared with. *)

(** The fixed order of the twelve piece kinds: black pawn, white pawn,
    black knight, white knight, black bishop, white bishop, black rook,
    white rook, black queen, white queen, black king, white king. *)
Definition pieceOrder : list ascii :=
  ["p"; "P"; "n"; "N"; "b"; "B"; "r"; "R"; "q"; "Q"; "k"; "K"]%char.

(** The digits that stand for a run of empty squares, by the length of the
    run ([0] is decoded too, although the pattern never lets it through). *)
Definition runDigits : list ascii :=
  ["0"; "1"; "2"; "3"; "4"; "5"; "6"; "7"; "8"]%char.

(** The position of [c] in [l], counted from [k]. *)
Fixpoint positionIn (c : ascii) (l : list ascii) (k : Z) : option Z :=
  match l with
  | [] => None
  | x :: l' => if Ascii.eqb c x then Some k else positionIn c l' (k + 1)
  end.

(** The kind index of a piece letter, and the length of the run that a
    digit stands for. *)
Definition kindIndex (c : ascii) : option Z := positionIn c pieceOrder 0.
Definition emptyRun (c : ascii) : option Z := positionIn c runDigits 0.

(** A character that the board decoder recognizes. *)
Definition recognized (c : ascii) : bool :=
  match kindIndex c, emptyRun c with
  | None, None => false
  | _, _ => true
  end.

(** A piece on the board: its kind index, its board rank and its file. *)
Definition placement : Type := (Z * Z * Z)%type.

(** The pieces of one rank, from the file counter [file] on: a piece
    letter places a piece and advances the counter by one, a digit advances
    it by its value.  A character that is neither places nothing. *)
Fixpoint rankPlacements (s : string) (rank file : Z) : list placement :=
  match s with
  | EmptyString => []
  | String c s' =>
      match kindIndex c, emptyRun c with
      | Some k, _ => (k, rank, file) :: rankPlacements s' rank (file + 1)
      | None, Some d => rankPlacements s' rank (file + d)
      | None, None => rankPlacements s' rank file
      end
  end.

(** The number of files that a rank string covers. *)
Fixpoint rankWidth (s : string) : Z :=
  match s with
  | EmptyString => 0
  | String c s' =>
      match kindIndex c, emptyRun c with
      | Some _, _ => 1 + rankWidth s'
      | None, Some d => d + rankWidth s'
      | None, None => rankWidth s'
      end
  end.

(** A rank that does not cover exactly eight files. *)
Definition badWidth (s : string) : bool := negb (rankWidth s =? 8).

(** Row [i] of the placement field (0 = the first row as written) is
    board rank [7 - i]. *)
Fixpoint boardPlacements (ranks : list string) (i : Z) : list placement :=
  match ranks with
  | [] => []
  | s :: ranks' =>
      (rankPlacements s (7 - i) 0 ++ boardPlacements ranks' (i + 1))%list
  end.

Definition placements (pieces : string) : list placement :=
  boardPlacements (JS.split "/" pieces) 0.

(** [pieceKindIndex*64 + rank*8 + file] *)
Definition tableIndex (p : placement) : Z :=
  let '(k, rank, file) := p in k * 64 + rank * 8 + file.

(** One XOR of [ConstantTable[num]] for each [num] of the list, in
    order. *)
Fixpoint xorAll (hashes : list string) (arr : Hash) (nums : list Z)
  : outcome Hash :=
  match nums with
  | [] => Ret arr
  | num :: nums' => bindO (xorHash hashes arr num)
                      (fun arr' => xorAll hashes arr' nums')
  end.

(** ** The en-passant target as the specification describes it *)

(** The adjacency of the specification: a black pawn on board rank 3 next
    to the file of a target on rank 2, or a white pawn on board rank 4 next
    to the file of a target on rank 5. *)
Definition capturer (epRank epFile : Z) (p : placement) : bool :=
  let '(k, rank, file) := p in
  ((k =? 0) && (epRank =? 2) && (rank =? 3)
   || (k =? 1) && (epRank =? 5) && (rank =? 4))
  && ((file =? epFile - 1) || (file =? epFile + 1)).

Definition capturers (epRank epFile : Z) (pieces : string)
  : list placement :=
  filter (capturer epRank epFile) (placements pieces).

(** The file and the rank that the two characters of a target square
    declare, and the squares of the board. *)
Definition squareFile (c : ascii) : Z := JS.charCode c - 97.
Definition squareRank (c : ascii) : Z := JS.charCode c - 49.

Definition isSquare (fl rk : ascii) : bool :=
  (0 <=? squareFile fl) && (squareFile fl <=? 7)
  && (0 <=? squareRank rk) && (squareRank rk <=? 7).

(** The target that an en-passant field declares: the rank and the file
    of the square that its two characters name, when they name one. *)
Definition targetOf (enPassant : string) : option (Z * Z) :=
  match enPassant with
  | String fl (String rk EmptyString) =>
      if isSquare fl rk then Some (squareRank rk, squareFile fl) else None
  | _ => None
  end.

(** The side that a pawn of kind [k] belongs to. *)
Definition pawnSide (k : Z) : string := if k =? 0 then "b" else "w".

(** ** The castling field as the specification describes it *)

(** No character of [s] occurs twice. *)
Fixpoint noRepeat (s : string) : bool :=
  match s with
  | EmptyString => true
  | String c s' => negb (JS.includes s' c) && noRepeat s'
  end.

(** The literal [-], or one to four of the letters [K], [Q], [k], [q],
    none of them twice. *)
Definition castlingSubset (s : string) : bool :=
  String.eqb s "-"
  || (allChars (fun c => existsb (Ascii.eqb c) ["K"; "Q"; "k"; "q"]%char) s
      && noRepeat s
      && (1 <=? String.length s)%nat && (String.length s <=? 4)%nat).

(** ** The constant table

    The table of [./hashes] comes to the class from outside; the functions
    above take it as the parameter [hashes].  The specification describes
    it as 781 entries, each a 16-character hexadecimal string. *)

Definition isHexChar (c : ascii) : bool :=
  match JS.hexDigit c with
  | Some _ => true
  | None => false
  end.

(** A 16-character hexadecimal string, and a table of such strings. *)
Definition wellFormedEntry (s : string) : bool :=
  (String.length s =? 16)%nat && allChars isHexChar s.

Definition wellFormedTable (hashes : list string) : bool :=
  forallb wellFormedEntry hashes.

(** A byte, and a hash of eight bytes. *)
Definition isByte (n : JS.number) : bool :=
  match n with
  | JS.Num z => (0 <=? z) && (z <? 256)
  | JS.NaN => false
  end.

Definition isHash8 (h : Hash) : bool :=
  (List.length h =? 8)%nat && forallb isByte h.

(** A lowercase hexadecimal digit. *)
Definition isLowerHex (c : ascii) : bool :=
  let n := JS.charCode c in
  ((48 <=? n) && (n <=? 57)) || ((97 <=? n) && (n <=? 102)).

(** What [createHexString] writes for one byte. *)
Definition byteHex (z : Z) : string := JS.padStart2 (JS.toString16 (JS.Num z)).

(** A table of 781 well-formed entries on which the class can be run.
    Entry 780 is the side constant, which the vector of the empty board
    with White to move fixes as [f8d626aaaf278509]; the other entries are
    arbitrary 16-digit strings, all different. *)
Definition sampleEntry (i : nat) : string :=
  let z := Z.of_nat i in
  createHexString
    [JS.Num ((z * 7 + 3) mod 256); JS.Num ((z * 13 + 5) mod 256);
     JS.Num ((z * 31 + 7) mod 256); JS.Num ((z * 61 + 11) mod 256);
     JS.Num ((z * 101 + 13) mod 256); JS.Num ((z * 151 + 17) mod 256);
     JS.Num (z / 256); JS.Num (z mod 256)].

Definition sampleHashes : list string :=
  Eval vm_compute in (map sampleEntry (seq 0 780) ++ ["f8d626aaaf278509"])%list.

(** The characters, and the bytes, one by one. *)
Definition allAscii : list ascii := map ascii_of_nat (seq 0 256).
Definition allBytes : list Z := map Z.of_nat (seq 0 256).

(** ** The stages of [hashPosition] in closed form *)

(** What the two tests of a pawn case compute, for the pawn of kind [k]
    just placed on ([rank], [file]). *)
Definition nearTarget (epRank epFile : Z) (p : placement) : bool :=
  let '(k, rank, file) := p in
  ((k =? 0) && (epRank =? 2) && (rank =? 3)
   || (k =? 1) && (epRank =? 5) && (rank =? 4))
  && ((epFile >? 0) && (file =? epFile - 1)
      || (epFile <? 7) && (file =? epFile + 1)).

(** The fields after the two tests. *)
Definition notePawn (p : placement) (this : ChessHasher) : ChessHasher :=
  if nearTarget (enPasRank this) (enPasFile this) p
  then set_pawnNearby this true else this.

(** The fields after the decoder has placed the pieces [pl] and, when [bad]
    holds, met a rank that does not cover eight files. *)
Definition decodedState (this : ChessHasher) (pl : list placement)
  (bad : bool) : ChessHasher :=
  {| error := error this || bad;
     enPasRank := enPasRank this;
     enPasFile := enPasFile this;
     pawnNearby := pawnNearby this
                   || existsb (nearTarget (enPasRank this) (enPasFile this)) pl
  |}.

(** A run of the decoder agrees with the specification: when it returns,
    it returns [final] of the accumulator after one XOR per index of
    [nums], and leaves the fields [this']; it throws when one of these
    XORs does. *)
Definition agrees {A : Type} (hashes : list string)
  (run : outcome A * ChessHasher) (arr : Hash) (nums : list Z)
  (final : Hash -> A) (this' : ChessHasher) : Prop :=
  match run with
  | (Ret a, t) => exists arr', xorAll hashes arr nums = Ret arr'
                               /\ a = final arr' /\ t = this'
  | (Throw e, _) => xorAll hashes arr nums = Throw e
  end.

(** What [hashPosition] does once the four fields are destructured. *)
Definition hashFields (hashes : list string)
  (pieces color castling enPassant : string) : M string :=
  (parseEnPassant enPassant ;;;
   hash <- hashPieces hashes emptyHash pieces ;;
   nearby <- get pawnNearby ;;
   hash <- (if nearby : bool
            then f <- get enPasFile ;; lift (xorHash hashes hash (772 + f))
            else ret hash) ;;
   hash <- lift (hashSide hashes hash color) ;;
   hash <- lift (hashCastling hashes hash castling) ;;
   err <- get error ;;
   ret (if err : bool then wrongPosition else createHexString hash))%hasher.

(** The fields once [parseEnPassant] has run on freshly reset fields. *)
Definition afterEnPassant (enPassant : string) : ChessHasher :=
  snd (parseEnPassant enPassant newChessHasher).

(** The fields that the decoder leaves on the placement field [pieces],
    after [parseEnPassant] on [enPassant]. *)
Definition decoded (pieces enPassant : string) : ChessHasher :=
  decodedState (afterEnPassant enPassant) (placements pieces)
    (existsb badWidth (JS.split "/" pieces)).

(** The en-passant stage on the fields [st] that the decoder left. *)
Definition enPassantStage (hashes : list string) (st : ChessHasher)
  (hash : Hash) : outcome Hash :=
  if pawnNearby st then xorHash hashes hash (772 + enPasFile st)
  else Ret hash.

(** The indices that the castling stage XORs, in its order. *)
Definition castlingNums (str : string) : list Z :=
  if String.eqb str "-" then []
  else ((if JS.includes str "K" then [768] else [])
        ++ (if JS.includes str "Q" then [769] else [])
        ++ (if JS.includes str "k" then [770] else [])
        ++ (if JS.includes str "q" then [771] else []))%list.

(** Side and castling stages, then the encoding, or the sentinel when the
    error flag [err] is set. *)
Definition finish (hashes : list string) (color castling : string)
  (err : bool) (hash : Hash) : outcome string :=
  bindO (hashSide hashes hash color) (fun hash =>
  bindO (hashCastling hashes hash castling) (fun hash =>
  Ret (if err then wrongPosition else createHexString hash))).

(** The outcome of [hashPosition] on four well-formed fields. *)
Definition expected (hashes : list string)
  (pieces color castling enPassant : string) : outcome string :=
  bindO (xorAll hashes emptyHash (map tableIndex (placements pieces)))
    (fun board =>
  bindO (enPassantStage hashes (decoded pieces enPassant) board)
    (fun hash =>
  finish hashes color castling (error (decoded pieces enPassant)) hash)).

(** The instance after a series of earlier calls, each of which returned
    or threw. *)
Fixpoint afterCalls (hashes : list string) (fens : list string)
  (this : ChessHasher) : ChessHasher :=
  match fens with
  | [] => this
  | fen :: fens' => afterCalls hashes fens' (snd (hashPosition hashes fen this))
  end.

(** ** Three statements that the code does not satisfy *)

(** Every castling field that is not [castlingSubset] is rejected: the
    statement on one string. *)
Definition castlingClaim (hashes : list string) (fen : string) : Prop :=
  forall castling,
    nth_error (JS.split " " fen) 2 = Some castling ->
    castlingSubset castling = false ->
    fst (hashPosition hashes fen newChessHasher) = Ret wrongPosition.


(** When the en-passant constant is XORed, every pawn next to the target
    that the en-passant field declares, on the rank from which it would
    capture, is of the colour opposite to the side to move: the statement
    on one string. *)
Definition opponentPawnClaim (hashes : list string)
  (pieces color castling enPassant half full : string) : Prop :=
  let run := hashPosition hashes
               (fenOf pieces color castling enPassant half full)
               newChessHasher in
  forall out epRank epFile,
    fst run = Ret out -> out <> wrongPosition ->
    targetOf enPassant = Some (epRank, epFile) ->
    pawnNearby (snd run) = true ->
    forall k rank file,
      In (k, rank, file) (placements pieces) ->
      capturer epRank epFile (k, rank, file) = true ->
      pawnSide k <> color.

(** ** Vocabulary of the further properties *)

(** An en-passant field on which [parseEnPassant] does not raise the error
    flag: the literal [-], or a square. *)
Definition validTarget (s : string) : bool :=
  String.eqb s "-"
  || match s with
     | String fl (String rk EmptyString) => isSquare fl rk
     | _ => false
     end.

(** The index that the side stage XORs, and the one that the en-passant
    stage XORs on a board whose ranks cover eight files each. *)
Definition sideNums (color : string) : list Z :=
  if String.eqb color "w" then [780] else [].

Definition enPassantNums (pieces enPassant : string) : list Z :=
  match enPassant with
  | String fl (String rk EmptyString) =>
      match capturers (squareRank rk) (squareFile fl) pieces with
      | [] => []
      | _ :: _ => [772 + squareFile fl]
      end
  | _ => []
  end.

(** The indices of all the constants of a position, in the order of the
    stages. *)
Definition positionNums (pieces color castling enPassant : string)
  : list Z :=
  (map tableIndex (placements pieces) ++ enPassantNums pieces enPassant
   ++ sideNums color ++ castlingNums castling)%list.


(** The lowercase of a character and of a string. *)
Definition lowerChar (c : ascii) : ascii :=
  let n := JS.charCode c in
  if (65 <=? n) && (n <=? 90) then ascii_of_N (Z.to_N (n + 32)) else c.

Fixpoint lowerString (s : string) : string :=
  match s with
  | EmptyString => EmptyString
  | String c s' => String (lowerChar c) (lowerString s')
  end.

(** * Lemmas *)

(** ** Strings *)

Lemma append_empty_r (s : string) : s ++ "" = s.
Proof. induction s as [|c s IH]; simpl; [reflexivity | now rewrite IH]. Qed.

Lemma append_assoc (a b c : string) : (a ++ b) ++ c = a ++ (b ++ c).
Proof. induction a as [|x a IH]; simpl; [reflexivity | now rewrite IH]. Qed.

Lemma append_eq_empty (a b : string) : a ++ b = "" -> a = "" /\ b = "".
Proof. destruct a; simpl; [auto | discriminate]. Qed.

Lemma append_eq_String (a b : string) (c : ascii) (s : string) :
  a ++ b = String c s ->
  (a = "" /\ b = String c s) \/ (exists a', a = String c a' /\ s = a' ++ b).
Proof.
  destruct a as [|x a]; simpl; intros H.
  - left; auto.
  - injection H as -> <-. right. now exists a.
Qed.

Lemma length_append (a b : string) :
  String.length (a ++ b) = (String.length a + String.length b)%nat.
Proof. induction a as [|x a IH]; simpl; [reflexivity | now rewrite IH]. Qed.

Lemma substring_full (s : string) :
  String.substring 0 (String.length s) s = s.
Proof. induction s as [|c s IH]; simpl; [reflexivity | now rewrite IH]. Qed.

Lemma substring_split (lo : nat) : forall s : string,
  (lo <= String.length s)%nat ->
  s = String.substring 0 lo s
      ++ String.substring lo (String.length s - lo) s.
Proof.
  induction lo as [|lo IH]; intros s L.
  - rewrite Nat.sub_0_r, substring_full. now destruct s.
  - destruct s as [|c s]; simpl in *; [lia|].
    f_equal. apply IH. lia.
Qed.

Lemma length_substring_0 (lo : nat) : forall s : string,
  (lo <= String.length s)%nat ->
  String.length (String.substring 0 lo s) = lo.
Proof.
  induction lo as [|lo IH]; intros s L.
  - now destruct s.
  - destruct s as [|c s]; simpl in *; [lia|]. f_equal. apply IH. lia.
Qed.

Lemma allChars_append p a b :
  allChars p (a ++ b) = allChars p a && allChars p b.
Proof.
  induction a as [|x a IH]; simpl; [reflexivity|].
  now rewrite IH, andb_assoc.
Qed.

Lemma allChars_impl (p q : ascii -> bool) s :
  (forall c, p c = true -> q c = true) ->
  allChars p s = true -> allChars q s = true.
Proof.
  intros Hpq. induction s as [|c s IH]; simpl; [reflexivity|].
  intros H. apply andb_prop in H as [H1 H2].
  now rewrite (Hpq _ H1), IH.
Qed.

(** ** The two bounded loops run to their end

    [parseHexString] and [toString(16)] are loops; their models recurse on
    a bound.  The bound that each is given never cuts it short: any larger
    one gives the same result. *)

Lemma parseHexString_loop_step fuel c1 c2 rest :
  parseHexString_loop (S fuel) (String c1 (String c2 rest))
  = JS.parseInt16 (String c1 (String c2 ""))
      :: parseHexString_loop fuel rest.
Proof.
  cbn [parseHexString_loop].
  replace (2 <=? JS.length (String c1 (String c2 rest))) with true.
  - unfold JS.substring02, JS.substring2.
    cbn [String.length String.substring Nat.sub].
    rewrite Nat.sub_0_r, substring_full. now destruct rest.
  - symmetry. apply Z.leb_le. unfold JS.length. cbn [String.length]. lia.
Qed.

Lemma parseHexString_loop_enough fuel : forall s fuel',
  (String.length s <= fuel)%nat -> (String.length s <= fuel')%nat ->
  parseHexString_loop fuel s = parseHexString_loop fuel' s.
Proof.
  induction fuel as [|fuel IH]; intros s fuel' H H'.
  - destruct s; [|simpl in H; lia]. now destruct fuel'.
  - destruct s as [|a [|b rest]].
    + now destruct fuel'.
    + now destruct fuel'.
    + destruct fuel' as [|fuel']; [simpl in H'; lia|].
      rewrite !parseHexString_loop_step. f_equal.
      apply IH; simpl in *; lia.
Qed.

Lemma hexDigits_enough fuel : forall z acc fuel',
  0 <= z < 16 ^ Z.of_nat (S fuel) -> (fuel <= fuel')%nat ->
  JS.hexDigits (S fuel) z acc = JS.hexDigits (S fuel') z acc.
Proof.
  induction fuel as [|fuel IH]; intros z acc fuel' Hz Hf;
    cbn [JS.hexDigits].
  - change (16 ^ Z.of_nat 1) with 16 in Hz.
    replace (z / 16 =? 0) with true; [reflexivity|].
    symmetry. apply Z.eqb_eq, Z.div_small. lia.
  - destruct (z / 16 =? 0) eqn:E; [reflexivity|].
    destruct fuel' as [|fuel']; [lia|].
    apply IH; [|lia].
    rewrite Nat2Z.inj_succ, Z.pow_succ_r in Hz by lia.
    split; [apply Z.div_pos; lia|].
    apply Z.div_lt_upper_bound; lia.
Qed.

Lemma toString16_bound z :
  0 < z -> 0 <= z < 16 ^ Z.of_nat (S (Z.to_nat (Z.log2 z))).
Proof.
  intros Hz. split; [lia|].
  rewrite Nat2Z.inj_succ, Z2Nat.id by apply Z.log2_nonneg.
  pose proof (Z.log2_spec z Hz) as [_ H].
  eapply Z.lt_le_trans; [exact H|].
  apply Z.pow_le_mono_l. pose proof (Z.log2_nonneg z). lia.
Qed.

Lemma toString16_enough z acc fuel' :
  0 <= z -> (Z.to_nat (Z.log2 z) <= fuel')%nat ->
  JS.hexDigits (S (Z.to_nat (Z.log2 z))) z acc = JS.hexDigits (S fuel') z acc.
Proof.
  intros Hz Hf. apply hexDigits_enough; [|exact Hf].
  destruct (Z.eq_dec z 0) as [->|Hnz].
  - change (Z.log2 0) with 0. simpl. lia.
  - apply toString16_bound. lia.
Qed.

(** ** Regular expressions: [test] decides the language *)

Module RegExpFacts.
Import RegExp.

Lemma nullable_Matches r : nullable r = true <-> Matches r "".
Proof.
  induction r as [| |l|r1 IH1 r2 IH2|r1 IH1 r2 IH2|r IH]; simpl.
  - split; [discriminate | intros H; inversion H].
  - split; [constructor | reflexivity].
  - split; [discriminate | intros H; inversion H].
  - rewrite andb_true_iff, IH1, IH2. split.
    + intros [H1 H2]. change "" with ("" ++ ""). now constructor.
    + intros H. inversion H as [| |? ? s1 s2 H1 H2| | | |]; subst.
      match goal with E : _ ++ _ = "" |- _ =>
        apply append_eq_empty in E as [-> ->] end. auto.
  - rewrite orb_true_iff, IH1, IH2. split.
    + intros [H|H]; [now apply MAltL | now apply MAltR].
    + intros H. inversion H; subst; auto.
  - split; [constructor | reflexivity].
Qed.

Lemma Matches_Star_cons r c s :
  Matches (Star r) (String c s) ->
  exists s1 s2, s = s1 ++ s2 /\ Matches r (String c s1)
                /\ Matches (Star r) s2.
Proof.
  intros H. remember (Star r) as r' eqn:Er. remember (String c s) as w eqn:Ew.
  revert s Ew.
  induction H as [| | | | | |r0 s1 s2 H1 _ H2 IH2]; intros s' Ew;
    try discriminate.
  injection Er as ->.
  apply append_eq_String in Ew as [[-> ->]|(a' & -> & ->)].
  - now apply IH2.
  - now exists a', s2.
Qed.

Lemma deriv_Matches c r : forall s,
  Matches (deriv c r) s <-> Matches r (String c s).
Proof.
  induction r as [| |l|r1 IH1 r2 IH2|r1 IH1 r2 IH2|r IH]; intros s; simpl.
  - split; intros H; inversion H.
  - split; intros H; inversion H.
  - destruct (inClass l c) eqn:E; split; intros H; inversion H; subst.
    + now constructor.
    + constructor.
    + congruence.
  - assert (Hcat : Matches (Cat (deriv c r1) r2) s <->
                   exists a b, s = a ++ b /\ Matches r1 (String c a)
                               /\ Matches r2 b).
    { split.
      - intros H. inversion H as [| |? ? a b Ha Hb| | | |]; subst.
        exists a, b. rewrite <- IH1. auto.
      - intros (a & b & -> & Ha & Hb). constructor; [now apply IH1 | easy]. }
    assert (Hsplit : Matches (Cat r1 r2) (String c s) <->
              (exists a b, s = a ++ b /\ Matches r1 (String c a)
                           /\ Matches r2 b)
              \/ (Matches r1 "" /\ Matches r2 (String c s))).
    { split.
      - intros H. inversion H as [| |? ? a b Ha Hb| | | |]; subst.
        match goal with E : _ ++ _ = String _ _ |- _ =>
          apply append_eq_String in E as [[-> ->]|(a' & -> & ->)] end.
        + right; auto.
        + left. now exists a', b.
      - intros [(a & b & -> & Ha & Hb)|[Ha Hb]].
        + change (String c (a ++ b)) with (String c a ++ b). now constructor.
        + change (String c s) with ("" ++ String c s). now constructor. }
    rewrite Hsplit. destruct (nullable r1) eqn:N.
    + split.
      * intros H. inversion H; subst.
        -- left. now apply Hcat.
        -- right. split; [now apply nullable_Matches | now apply IH2].
      * intros [H|[_ H]].
        -- apply MAltL. now apply Hcat.
        -- apply MAltR. now apply IH2.
    + rewrite Hcat. split; [auto|].
      intros [H|[H _]]; [easy|].
      apply nullable_Matches in H. congruence.
  - split; intros H; inversion H; subst.
    + apply MAltL. now apply IH1.
    + apply MAltR. now apply IH2.
    + apply MAltL. now apply IH1.
    + apply MAltR. now apply IH2.
  - split.
    + intros H. inversion H as [| |? ? a b Ha Hb| | | |]; subst.
      change (String c (a ++ b)) with (String c a ++ b).
      constructor; [now apply IH | easy].
    + intros H. apply Matches_Star_cons in H as (a & b & -> & Ha & Hb).
      constructor; [now apply IH | easy].
Qed.

Theorem test_Matches s : forall r, test r s = true <-> Matches r s.
Proof.
  induction s as [|c s IH]; intros r; simpl.
  - apply nullable_Matches.
  - rewrite IH. apply deriv_Matches.
Qed.

End RegExpFacts.

(** ** The shape of the strings that the pattern accepts *)

Module ShapeFacts.
Import RegExp RegExpFacts.

Lemma Matches_Cat r1 r2 s :
  Matches (Cat r1 r2) s <->
  exists a b, s = a ++ b /\ Matches r1 a /\ Matches r2 b.
Proof.
  split.
  - intros H. inversion H; subst. eauto.
  - intros (a & b & -> & Ha & Hb). now constructor.
Qed.

Lemma Matches_Eps s : Matches Eps s <-> s = "".
Proof.
  split; [intros H; now inversion H | intros ->; constructor].
Qed.

Lemma Matches_Cls l s :
  Matches (Cls l) s <-> exists c, s = String c "" /\ inClass l c = true.
Proof.
  split.
  - intros H. inversion H; subst. eauto.
  - intros (c & -> & H). now constructor.
Qed.

Lemma Matches_Lit c s : Matches (Lit c) s <-> s = String c "".
Proof.
  unfold Lit. rewrite Matches_Cls. unfold inClass; simpl. split.
  - intros (x & -> & H). rewrite orb_false_r in H.
    apply Ascii.eqb_eq in H. now subst.
  - intros ->. exists c. now rewrite Ascii.eqb_refl.
Qed.

Lemma Matches_Star_Cls l s :
  Matches (Star (Cls l)) s <-> allChars (inClass l) s = true.
Proof.
  split.
  - intros H. remember (Star (Cls l)) as r eqn:Er.
    induction H as [| | | | | |r0 s1 s2 H1 _ _ IH2]; try discriminate.
    + reflexivity.
    + injection Er as ->. apply Matches_Cls in H1 as (c & -> & Hc).
      simpl. now rewrite Hc, IH2.
  - induction s as [|c s IH]; simpl; intros H.
    + constructor.
    + apply andb_prop in H as [Hc Hs].
      change (String c s) with (String c "" ++ s).
      constructor; [now constructor | now apply IH].
Qed.

Lemma Matches_Plus_Cls l s :
  Matches (Plus (Cls l)) s <-> plusOf l s = true.
Proof.
  unfold Plus, plusOf. rewrite Matches_Cat. split.
  - intros (a & b & -> & Ha & Hb).
    apply Matches_Cls in Ha as (c & -> & Hc).
    apply Matches_Star_Cls in Hb. simpl. now rewrite Hc, Hb.
  - destruct s as [|c s]; simpl; [discriminate|].
    intros H. apply andb_prop in H as [Hc Hs].
    exists (String c ""), s. repeat split.
    + now constructor.
    + now apply Matches_Star_Cls.
Qed.

Lemma Matches_Times_Cls l n : forall s,
  Matches (Times n (Cls l)) s <->
  allChars (inClass l) s = true /\ String.length s = n.
Proof.
  induction n as [|n IH]; intros s; simpl.
  - rewrite Matches_Eps. split.
    + intros ->. auto.
    + intros [_ H]. now destruct s.
  - rewrite Matches_Cat. split.
    + intros (a & b & -> & Ha & Hb).
      apply Matches_Cls in Ha as (c & -> & Hc).
      apply IH in Hb as [Hb <-]. simpl. now rewrite Hc, Hb.
    + destruct s as [|c s]; simpl; intros [H L]; [discriminate|].
      apply andb_prop in H as [Hc Hs]. injection L as L.
      exists (String c ""), s. repeat split.
      * now constructor.
      * now apply IH.
Qed.

Lemma Matches_UpTo_Cls l n : forall s,
  Matches (UpTo n (Cls l)) s <->
  allChars (inClass l) s = true /\ (String.length s <= n)%nat.
Proof.
  induction n as [|n IH]; intros s; simpl.
  - rewrite Matches_Eps. split.
    + intros ->. auto.
    + intros [_ H]. destruct s; [reflexivity | simpl in H; lia].
  - split.
    + intros H. inversion H as [| | |? ? ? H1|? ? ? H1| |]; subst.
      * apply Matches_Eps in H1 as ->. simpl. split; [reflexivity | lia].
      * apply Matches_Cat in H1 as (a & b & -> & Ha & Hb).
        apply Matches_Cls in Ha as (c & -> & Hc).
        apply IH in Hb as [Hb L]. simpl. rewrite Hc, Hb.
        split; [reflexivity | lia].
    + destruct s as [|c s]; simpl; intros [H L].
      * apply MAltL. constructor.
      * apply andb_prop in H as [Hc Hs]. apply MAltR.
        change (String c s) with (String c "" ++ s).
        constructor; [now constructor | apply IH; split; [easy | lia]].
Qed.

Lemma Matches_Between_Cls l lo hi s :
  (lo <= hi)%nat ->
  Matches (Between lo hi (Cls l)) s <-> betweenOf l lo hi s = true.
Proof.
  intros Hlh. unfold Between, betweenOf. rewrite Matches_Cat.
  rewrite !andb_true_iff, !Nat.leb_le. split.
  - intros (a & b & -> & Ha & Hb).
    apply Matches_Times_Cls in Ha as [Ha La].
    apply Matches_UpTo_Cls in Hb as [Hb Lb].
    rewrite allChars_append, Ha, Hb, length_append. repeat split; lia.
  - intros [[H L1] L2].
    exists (String.substring 0 lo s),
           (String.substring lo (String.length s - lo) s).
    assert (E : s = String.substring 0 lo s
                    ++ String.substring lo (String.length s - lo) s)
      by now apply substring_split.
    split; [exact E|].
    rewrite E, allChars_append in H. apply andb_prop in H as [Ha Hb].
    assert (La : String.length (String.substring 0 lo s) = lo)
      by now apply length_substring_0.
    split.
    + apply Matches_Times_Cls. now split.
    + apply Matches_UpTo_Cls. split; [easy|].
      assert (L := f_equal String.length E).
      rewrite length_append, La in L. lia.
Qed.

End ShapeFacts.

Module FenShape.
Import RegExp RegExpFacts ShapeFacts.

Lemma joinWith_cons sep g groups :
  groups <> [] ->
  joinWith sep (g :: groups) = g ++ String sep (joinWith sep groups).
Proof. destruct groups; [congruence | reflexivity]. Qed.

(** [(cls+ sep){n} cls+] is [n + 1] groups joined by [sep]. *)
Lemma Matches_groups l sep n : forall s,
  (exists t p, s = t ++ p
               /\ Matches (Times n (Cat (Plus (Cls l)) (Lit sep))) t
               /\ plusOf l p = true)
  <-> exists groups, List.length groups = S n
                     /\ forallb (plusOf l) groups = true
                     /\ s = joinWith sep groups.
Proof.
  induction n as [|n IH]; intros s; simpl.
  - split.
    + intros (t & p & -> & Ht & Hp). apply Matches_Eps in Ht as ->.
      exists [p]. simpl. now rewrite Hp.
    + intros (groups & L & H & ->).
      destruct groups as [|g [|? ?]]; try discriminate.
      simpl in H. rewrite andb_true_r in H.
      exists "", g. repeat split; [constructor | easy].
  - split.
    + intros (t & p & -> & Ht & Hp).
      apply Matches_Cat in Ht as (x & t' & -> & Hx & Ht').
      apply Matches_Cat in Hx as (a & b & -> & Ha & Hb).
      apply Matches_Lit in Hb as ->. apply Matches_Plus_Cls in Ha.
      destruct (proj1 (IH (t' ++ p))) as (groups & L & H & E);
        [now exists t', p|].
      exists (a :: groups). repeat split.
      * simpl. now rewrite L.
      * simpl. now rewrite Ha, H.
      * rewrite joinWith_cons by (destruct groups; discriminate).
        rewrite <- E, !append_assoc. reflexivity.
    + intros (groups & L & H & ->).
      destruct groups as [|g groups]; [discriminate|].
      injection L as L. simpl in H. apply andb_prop in H as [Hg H].
      destruct (proj2 (IH (joinWith sep groups))) as (t' & p & E & Ht' & Hp);
        [now exists groups|].
      exists ((g ++ String sep "") ++ t'), p. repeat split.
      * rewrite joinWith_cons by (destruct groups; discriminate).
        rewrite E, !append_assoc. reflexivity.
      * constructor; [|easy].
        constructor; [now apply Matches_Plus_Cls | now apply Matches_Lit].
      * easy.
Qed.

(** The strings that [validFenPattern] accepts are the six fields, joined
    by single spaces, each of the shape its part of the pattern gives. *)
Theorem validFenPattern_spec fen :
  test validFenPattern fen = true <->
  exists ranks color castling enPassant half full,
    fen = fenOf (joinWith "/" ranks) color castling enPassant half full
    /\ fieldsOk ranks color castling enPassant half full = true.
Proof.
  rewrite test_Matches. unfold validFenPattern, fieldsOk, fenOf. split.
  - intros H.
    apply Matches_Cat in H as (t & s1 & -> & Ht & H).
    apply Matches_Cat in H as (p & s2 & -> & Hp & H).
    apply Matches_Cat in H as (sp1 & s3 & -> & Hsp1 & H).
    apply Matches_Cat in H as (color & s4 & -> & Hcolor & H).
    apply Matches_Cat in H as (sp2 & s5 & -> & Hsp2 & H).
    apply Matches_Cat in H as (castling & s6 & -> & Hcastling & H).
    apply Matches_Cat in H as (sp3 & s7 & -> & Hsp3 & H).
    apply Matches_Cat in H as (ep & s8 & -> & Hep & H).
    apply Matches_Cat in H as (sp4 & s9 & -> & Hsp4 & H).
    apply Matches_Cat in H as (half & s10 & -> & Hhalf & H).
    apply Matches_Cat in H as (sp5 & full & -> & Hsp5 & Hfull).
    apply Matches_Lit in Hsp1 as ->, Hsp2 as ->, Hsp3 as ->,
                         Hsp4 as ->, Hsp5 as ->.
    apply Matches_Plus_Cls in Hp, Hhalf, Hfull.
    apply (Matches_Between_Cls _ 1 4) in Hcastling; [|lia].
    apply (Matches_Between_Cls _ 1 2) in Hep; [|lia].
    assert (Hc : betweenOf sideClass 1 1 color = true).
    { apply Matches_Cls in Hcolor as (c & -> & Hc).
      unfold betweenOf, allChars. now rewrite Hc. }
    destruct (proj1 (Matches_groups boardClass "/" 7 (t ++ p)))
      as (ranks & L & Hr & E); [now exists t, p|].
    exists ranks, color, castling, ep, half, full. split.
    + rewrite <- E, !append_assoc. reflexivity.
    + simpl in Hcastling, Hep.
      rewrite L, Hr, Hc, Hcastling, Hep, Hhalf, Hfull. reflexivity.
  - intros (ranks & color & castling & ep & half & full & -> & H).
    rewrite !andb_true_iff in H.
    destruct H as [[[[[[L Hr] Hc] Hcastling] Hep] Hhalf] Hfull].
    apply Nat.eqb_eq in L.
    destruct (proj2 (Matches_groups boardClass "/" 7 (joinWith "/" ranks)))
      as (t & p & E & Ht & Hp); [now exists ranks|].
    rewrite E, append_assoc.
    constructor; [easy|].
    constructor; [now apply Matches_Plus_Cls|].
    change (" " ++ ?x) with (String " " "" ++ x).
    constructor; [now apply Matches_Lit|].
    constructor.
    { unfold betweenOf in Hc. rewrite !andb_true_iff, !Nat.leb_le in Hc.
      destruct Hc as [[Hc L1] L2].
      destruct color as [|c [|? ?]]; simpl in *; try lia.
      rewrite andb_true_r in Hc. now constructor. }
    constructor; [now apply Matches_Lit|].
    constructor; [apply (Matches_Between_Cls _ 1 4); [lia | easy]|].
    constructor; [now apply Matches_Lit|].
    constructor; [apply (Matches_Between_Cls _ 1 2); [lia | easy]|].
    constructor; [now apply Matches_Lit|].
    constructor; [now apply Matches_Plus_Cls|].
    constructor; [now apply Matches_Lit|].
    now apply Matches_Plus_Cls.
Qed.

End FenShape.

(** ** Accumulated XORs *)

Lemma xorAll_app hashes arr l1 l2 :
  xorAll hashes arr (l1 ++ l2)
  = bindO (xorAll hashes arr l1) (fun arr' => xorAll hashes arr' l2).
Proof.
  revert arr. induction l1 as [|n l1 IH]; intros arr; simpl.
  - reflexivity.
  - destruct (xorHash hashes arr n); simpl; [apply IH | reflexivity].
Qed.

(** ** The board decoder, character by character *)

Section Decoder.
Variable hashes : list string.

Lemma pawnCheck_black rank file this :
  pawnCheck 2 3 rank file this = (Ret tt, notePawn (0, rank, file) this).
Proof.
  unfold pawnCheck, when, bind, modify, notePawn, nearTarget.
  destruct this as [e r f n]; cbn [enPasRank enPasFile set_pawnNearby
    error pawnNearby].
  change (0 =? 0) with true. change (0 =? 1) with false.
  destruct (r =? 2) eqn:E1, (rank =? 3) eqn:E2, (f >? 0) eqn:E3,
    (file =? f - 1) eqn:E4, (f <? 7) eqn:E5, (file =? f + 1) eqn:E6;
    cbn [enPasRank enPasFile set_pawnNearby error pawnNearby andb orb];
    rewrite ?E1, ?E2, ?E3, ?E4, ?E5, ?E6; reflexivity.
Qed.

Lemma pawnCheck_white rank file this :
  pawnCheck 5 4 rank file this = (Ret tt, notePawn (1, rank, file) this).
Proof.
  unfold pawnCheck, when, bind, modify, notePawn, nearTarget.
  destruct this as [e r f n]; cbn [enPasRank enPasFile set_pawnNearby
    error pawnNearby].
  change (1 =? 0) with false. change (1 =? 1) with true.
  destruct (r =? 5) eqn:E1, (rank =? 4) eqn:E2, (f >? 0) eqn:E3,
    (file =? f - 1) eqn:E4, (f <? 7) eqn:E5, (file =? f + 1) eqn:E6;
    cbn [enPasRank enPasFile set_pawnNearby error pawnNearby andb orb];
    rewrite ?E1, ?E2, ?E3, ?E4, ?E5, ?E6; reflexivity.
Qed.

Lemma hashPieces_switch_spec c rank arr file this :
  hashPieces_switch hashes c rank arr file this =
  match kindIndex c, emptyRun c with
  | Some k, _ =>
      match xorHash hashes arr (tableIndex (k, rank, file)) with
      | Ret arr' => (Ret (Break arr' (file + 1)),
                     notePawn (k, rank, file) this)
      | Throw e => (Throw e, this)
      end
  | None, Some d => (Ret (Break arr (file + d)), this)
  | None, None => (Ret (Return arr), set_error this true)
  end.
Proof.
  unfold hashPieces_switch, kindIndex, emptyRun, pieceOrder, runDigits,
    positionIn, tableIndex.
  repeat (match goal with
          | |- context [Ascii.eqb c ?x] =>
              destruct (Ascii.eqb_spec c x) as [->|?]
          end;
          [ cbn [orb andb negb]; unfold bind, lift, ret, modify;
            match goal with
            | |- context [xorHash hashes arr ?n] =>
                match goal with
                | |- context [xorHash hashes arr ?m] =>
                    tryif constr_eq n m then fail
                    else replace m with n by lia
                end
            | _ => idtac
            end | ]).
  all: try reflexivity.
  - rewrite pawnCheck_black. reflexivity.
  - rewrite pawnCheck_white. reflexivity.
Qed.

End Decoder.

Lemma decodedState_nil this : decodedState this [] false = this.
Proof.
  destruct this; unfold decodedState; simpl. now rewrite !orb_false_r.
Qed.

Lemma decodedState_notePawn this p pl bad :
  decodedState (notePawn p this) pl bad = decodedState this (p :: pl) bad.
Proof.
  unfold notePawn, decodedState. simpl.
  destruct (nearTarget (enPasRank this) (enPasFile this) p); simpl.
  - now rewrite orb_true_r.
  - reflexivity.
Qed.

Lemma decodedState_app this pl1 b1 pl2 b2 :
  decodedState (decodedState this pl1 b1) pl2 b2
  = decodedState this (pl1 ++ pl2) (b1 || b2).
Proof.
  unfold decodedState; simpl. now rewrite existsb_app, !orb_assoc.
Qed.

Lemma decodedState_error this pl :
  set_error (decodedState this pl false) true = decodedState this pl true.
Proof. unfold decodedState, set_error; simpl. now rewrite orb_true_r. Qed.

Section DecoderRanks.
Variable hashes : list string.

(** A rank of recognized characters. *)
Lemma hashPieces_rank_spec s : forall rank arr file this,
  allChars recognized s = true ->
  agrees hashes (hashPieces_rank hashes s rank arr file this) arr
    (map tableIndex (rankPlacements s rank file))
    (fun arr' => Break arr' (file + rankWidth s))
    (decodedState this (rankPlacements s rank file) false).
Proof.
  induction s as [|c s IH]; intros rank arr file this Hs.
  - simpl. exists arr. rewrite Z.add_0_r, decodedState_nil. auto.
  - simpl in Hs. apply andb_prop in Hs as [Hc Hs].
    cbn [hashPieces_rank rankPlacements rankWidth]. unfold bind.
    rewrite hashPieces_switch_spec. unfold recognized in Hc.
    destruct (kindIndex c) as [k|]; [|destruct (emptyRun c) as [d|]].
    + unfold agrees in *. cbn [map xorAll].
      destruct (xorHash hashes arr (tableIndex (k, rank, file)))
        as [arr1|e]; [|reflexivity].
      specialize (IH rank arr1 (file + 1) (notePawn (k, rank, file) this) Hs).
      cbn [bindO].
      destruct (hashPieces_rank hashes s rank arr1 (file + 1) _)
        as [[t|e] this']; [|exact IH].
      destruct IH as (arr' & E1 & E2 & E3). exists arr'.
      rewrite E1, E2, E3, decodedState_notePawn, Z.add_assoc. auto.
    + specialize (IH rank arr (file + d) this Hs). unfold agrees in *.
      destruct (hashPieces_rank hashes s rank arr (file + d) _)
        as [[t|e] this']; [|exact IH].
      destruct IH as (arr' & E1 & E2 & E3). exists arr'.
      rewrite E1, E2, E3, Z.add_assoc. auto.
    + discriminate.
Qed.


End DecoderRanks.

Section DecoderBoard.
Variable hashes : list string.

Lemma agrees_step {A : Type} (run : outcome A * ChessHasher)
  arr0 nums0 arr nums final this' :
  xorAll hashes arr0 nums0 = Ret arr ->
  agrees hashes run arr nums final this' ->
  agrees hashes run arr0 (nums0 ++ nums) final this'.
Proof.
  unfold agrees. intros E H. rewrite xorAll_app, E. exact H.
Qed.

(** The loop over the ranks, all of recognized characters. *)
Lemma hashPieces_ranks_spec ranks : forall i arr this,
  forallb (allChars recognized) ranks = true ->
  agrees hashes (hashPieces_ranks hashes ranks i arr this) arr
    (map tableIndex (boardPlacements ranks i))
    (fun arr' => arr')
    (decodedState this (boardPlacements ranks i) (existsb badWidth ranks)).
Proof.
  induction ranks as [|s ranks IH]; intros i arr this Hr.
  - simpl. exists arr. rewrite decodedState_nil. auto.
  - simpl in Hr. apply andb_prop in Hr as [Hs Hr].
    cbn [hashPieces_ranks boardPlacements existsb]. unfold bind at 1.
    assert (R := hashPieces_rank_spec hashes s (7 - i) arr 0 this Hs).
    rewrite map_app.
    destruct (hashPieces_rank hashes s (7 - i) arr 0 this)
      as [[t|e] this1]; unfold agrees in R.
    + destruct R as (arr1 & E1 & -> & ->).
      apply agrees_step with (arr := arr1); [exact E1|].
      rewrite Z.add_0_l, <- decodedState_app. fold (badWidth s).
      unfold bind, modify, ret.
      destruct (badWidth s).
      * rewrite <- decodedState_error. apply IH, Hr.
      * apply IH, Hr.
    + unfold agrees. rewrite xorAll_app, R. reflexivity.
Qed.


(** [hashPieces] on eight ranks of recognized characters. *)
Lemma hashPieces_spec arr pieces this :
  List.length (JS.split "/" pieces) = 8%nat ->
  forallb (allChars recognized) (JS.split "/" pieces) = true ->
  agrees hashes (hashPieces hashes arr pieces this) arr
    (map tableIndex (placements pieces))
    (fun arr' => arr')
    (decodedState this (placements pieces)
       (existsb badWidth (JS.split "/" pieces))).
Proof.
  intros L Hr. unfold hashPieces. rewrite L. simpl negb. cbv iota.
  now apply hashPieces_ranks_spec.
Qed.

End DecoderBoard.

(** ** Characters, splitting and trimming *)

(** A property of characters that holds of the 256 of them. *)
Lemma forall_ascii (P : ascii -> bool) :
  forallb P allAscii = true -> forall c, P c = true.
Proof.
  intros H c. rewrite forallb_forall in H. apply H.
  rewrite <- (ascii_nat_embedding c). apply in_map, in_seq.
  pose proof (nat_ascii_bounded c). lia.
Qed.

Lemma boardClass_chars c :
  RegExp.inClass boardClass c = true ->
  recognized c = true /\ negb (Ascii.eqb c "/") = true
  /\ negb (Ascii.eqb c " ") = true /\ JS.isWhiteSpace c = false.
Proof.
  intros H.
  assert (A : implb (RegExp.inClass boardClass c)
                (recognized c && negb (Ascii.eqb c "/")
                 && negb (Ascii.eqb c " ") && negb (JS.isWhiteSpace c)) = true).
  { revert c H. intros c _. revert c. apply forall_ascii. vm_compute. reflexivity. }
  rewrite H in A. simpl in A. rewrite !andb_true_iff in A.
  destruct A as [[[A1 A2] A3] A4]. apply negb_true_iff in A4. auto.
Qed.

Lemma fieldClass_chars cls c :
  In cls [sideClass; castlingClass; enPassantClass; digitClass] ->
  RegExp.inClass cls c = true ->
  negb (Ascii.eqb c " ") = true /\ JS.isWhiteSpace c = false.
Proof.
  intros Hin H.
  assert (A : forallb (fun cls => implb (RegExp.inClass cls c)
                 (negb (Ascii.eqb c " ") && negb (JS.isWhiteSpace c)))
                [sideClass; castlingClass; enPassantClass; digitClass] = true).
  { clear. revert c. apply forall_ascii. vm_compute. reflexivity. }
  rewrite forallb_forall in A. specialize (A cls Hin).
  rewrite H in A. simpl in A. apply andb_prop in A as [A1 A2].
  apply negb_true_iff in A2. auto.
Qed.

Lemma split_none sep s : noChar sep s = true -> JS.split sep s = [s].
Proof.
  induction s as [|c s IH]; simpl; [reflexivity|].
  intros H. apply andb_prop in H as [Hc Hs]. apply negb_true_iff in Hc.
  now rewrite Hc, (IH Hs).
Qed.

Lemma split_append sep a b :
  noChar sep a = true ->
  JS.split sep (a ++ String sep b) = a :: JS.split sep b.
Proof.
  induction a as [|c a IH]; simpl.
  - now rewrite Ascii.eqb_refl.
  - intros H. apply andb_prop in H as [Hc Hs]. apply negb_true_iff in Hc.
    now rewrite Hc, (IH Hs).
Qed.

Lemma split_joinWith sep groups :
  groups <> [] -> forallb (noChar sep) groups = true ->
  JS.split sep (joinWith sep groups) = groups.
Proof.
  induction groups as [|g groups IH]; [congruence|].
  intros _ H. simpl in H. apply andb_prop in H as [Hg H].
  destruct groups as [|g' groups].
  - simpl. now apply split_none.
  - rewrite FenShape.joinWith_cons by discriminate.
    rewrite split_append by exact Hg. f_equal. now apply IH.
Qed.

Lemma trimStart_id c s :
  JS.isWhiteSpace c = false -> JS.trimStart (String c s) = String c s.
Proof. intros H. simpl. now rewrite H. Qed.

Lemma trimEnd_id t :
  allChars (fun c => negb (JS.isWhiteSpace c)) t = true -> JS.trimEnd t = t.
Proof.
  induction t as [|c t IH]; simpl; [reflexivity|].
  intros H. apply andb_prop in H as [Hc Ht]. apply negb_true_iff in Hc.
  rewrite (IH Ht), Hc. now destruct t.
Qed.

Lemma trimEnd_append s t :
  t <> "" -> JS.trimEnd t = t -> JS.trimEnd (s ++ t) = s ++ t.
Proof.
  intros Hne Ht. induction s as [|c s IH]; simpl.
  - exact Ht.
  - rewrite IH. destruct (s ++ t) eqn:E; [|reflexivity].
    apply append_eq_empty in E as [_ E]. contradiction.
Qed.

Lemma trimEnd_String c t :
  t <> "" -> JS.trimEnd t = t -> JS.trimEnd (String c t) = String c t.
Proof. intros Hne Ht. now apply (trimEnd_append (String c "")). Qed.

Lemma plusOf_inv cls s :
  plusOf cls s = true ->
  exists c s', s = String c s' /\ RegExp.inClass cls c = true
               /\ allChars (RegExp.inClass cls) s = true.
Proof.
  unfold plusOf. destruct s as [|c s]; simpl; [discriminate|].
  intros H. exists c, s. apply andb_prop in H as [Hc Hs].
  now rewrite Hc, Hs.
Qed.

Lemma betweenOf_inv cls lo hi s :
  betweenOf cls lo hi s = true ->
  allChars (RegExp.inClass cls) s = true
  /\ (lo <= String.length s <= hi)%nat.
Proof.
  unfold betweenOf. rewrite !andb_true_iff, !Nat.leb_le. tauto.
Qed.

(** ** [hashPosition] on the strings that the pattern accepts *)

Section Fields.
Variables (ranks : list string) (color castling enPassant half full : string).
Hypothesis Hok : fieldsOk ranks color castling enPassant half full = true.

Let pieces := joinWith "/" ranks.
Let fen := fenOf pieces color castling enPassant half full.

Lemma fieldsOk_inv :
  List.length ranks = 8%nat
  /\ forallb (plusOf boardClass) ranks = true
  /\ betweenOf sideClass 1 1 color = true
  /\ betweenOf castlingClass 1 4 castling = true
  /\ betweenOf enPassantClass 1 2 enPassant = true
  /\ plusOf digitClass half = true
  /\ plusOf digitClass full = true.
Proof.
  unfold fieldsOk in Hok. rewrite !andb_true_iff, Nat.eqb_eq in Hok. tauto.
Qed.

Lemma ranks_recognized : forallb (allChars recognized) ranks = true.
Proof.
  destruct fieldsOk_inv as (_ & H & _).
  rewrite forallb_forall in *. intros g Hg.
  apply H, plusOf_inv in Hg as (_ & _ & _ & _ & Hg).
  eapply allChars_impl; [|exact Hg]. intros c Hc.
  now apply boardClass_chars in Hc.
Qed.

Lemma split_pieces : JS.split "/" pieces = ranks.
Proof.
  destruct fieldsOk_inv as (L & H & _).
  apply split_joinWith; [destruct ranks; discriminate|].
  rewrite forallb_forall in *. intros g Hg.
  apply H, plusOf_inv in Hg as (_ & _ & _ & _ & Hg).
  eapply allChars_impl; [|exact Hg]. intros c Hc.
  now apply boardClass_chars in Hc.
Qed.

Lemma pieces_first :
  exists c s, pieces = String c s /\ JS.isWhiteSpace c = false.
Proof.
  destruct fieldsOk_inv as (L & H & _). unfold pieces.
  destruct ranks as [|g [|g' l]]; try discriminate.
  simpl in H. apply andb_prop in H as [Hg _].
  apply plusOf_inv in Hg as (c & s & -> & Hc & _).
  apply boardClass_chars in Hc as (_ & _ & _ & Hc).
  rewrite FenShape.joinWith_cons by discriminate.
  simpl. eauto.
Qed.

Lemma pieces_noSpace : noChar " " pieces = true.
Proof.
  destruct fieldsOk_inv as (_ & H & _). unfold pieces. clear Hok fen pieces.
  induction ranks as [|g l IH]; [reflexivity|].
  simpl in H. apply andb_prop in H as [Hg H].
  assert (G : noChar " " g = true).
  { apply plusOf_inv in Hg as (_ & _ & _ & _ & Hg).
    eapply allChars_impl; [|exact Hg]. intros c Hc.
    now apply boardClass_chars in Hc. }
  destruct l as [|g' l]; [exact G|].
  rewrite FenShape.joinWith_cons by discriminate.
  unfold noChar in *. rewrite allChars_append, G. simpl. now apply IH.
Qed.

Lemma field_noSpace cls lo hi s :
  In cls [sideClass; castlingClass; enPassantClass; digitClass] ->
  betweenOf cls lo hi s = true -> noChar " " s = true.
Proof.
  intros Hin H. apply betweenOf_inv in H as [H _].
  eapply allChars_impl; [|exact H]. intros c Hc.
  now apply (fieldClass_chars cls c Hin) in Hc.
Qed.

Lemma digits_noSpace s :
  plusOf digitClass s = true ->
  s <> "" /\ noChar " " s = true
  /\ allChars (fun c => negb (JS.isWhiteSpace c)) s = true.
Proof.
  intros H. apply plusOf_inv in H as (c & s' & -> & _ & H).
  assert (Hin : In digitClass
                  [sideClass; castlingClass; enPassantClass; digitClass])
    by (simpl; auto).
  split; [discriminate|].
  split; (eapply allChars_impl; [|exact H]); intros x Hx;
    apply (fieldClass_chars digitClass x Hin) in Hx as [Hx1 Hx2].
  - exact Hx1.
  - now rewrite Hx2.
Qed.

Lemma split_fen :
  JS.split " " fen = [pieces; color; castling; enPassant; half; full].
Proof.
  destruct fieldsOk_inv as (_ & _ & Hc & Hk & He & Hh & Hf).
  apply field_noSpace in Hc, Hk, He; simpl; auto.
  apply digits_noSpace in Hh as (_ & Hh & _), Hf as (_ & Hf & _).
  unfold fen, fenOf. cbn [append].
  rewrite !split_append by (assumption || apply pieces_noSpace).
  now rewrite split_none.
Qed.

Lemma trim_fen : JS.trim fen = fen.
Proof.
  destruct fieldsOk_inv as (_ & _ & _ & _ & _ & _ & Hf).
  apply digits_noSpace in Hf as (Hne & _ & Hf).
  destruct pieces_first as (c & s & E & Hc).
  unfold JS.trim, fen, fenOf. rewrite E at 1.
  cbn [append]. rewrite trimStart_id by exact Hc.
  change (String c (s ++ ?x)) with (String c s ++ x). rewrite <- E.
  change (String " "%char ?x) with (" " ++ x).
  assert (N : forall a b x, JS.trimEnd b = b -> b <> "" ->
            JS.trimEnd (a ++ String x b) = a ++ String x b
            /\ a ++ String x b <> "").
  { intros a b x Hb Hn. split.
    - apply trimEnd_append; [discriminate | now apply trimEnd_String].
    - destruct a; discriminate. }
  apply trimEnd_id in Hf.
  destruct (N half full " "%char Hf Hne) as [T1 N1].
  destruct (N enPassant _ " "%char T1 N1) as [T2 N2].
  destruct (N castling _ " "%char T2 N2) as [T3 N3].
  destruct (N color _ " "%char T3 N3) as [T4 N4].
  destruct (N pieces _ " "%char T4 N4) as [T5 _]. exact T5.
Qed.

Lemma fen_accepted : RegExp.test validFenPattern fen = true.
Proof.
  apply FenShape.validFenPattern_spec.
  exists ranks, color, castling, enPassant, half, full. auto.
Qed.

Lemma fields_nonempty :
  String.eqb pieces "" || String.eqb color ""
  || String.eqb castling "" || String.eqb enPassant "" = false.
Proof.
  destruct fieldsOk_inv as (_ & _ & Hc & Hk & He & _).
  destruct pieces_first as (c & s & -> & _).
  apply betweenOf_inv in Hc as [_ Hc], Hk as [_ Hk], He as [_ He].
  destruct color, castling, enPassant; simpl in *;
    solve [lia | reflexivity].
Qed.

(** After the pattern has accepted the string, [hashPosition] runs the
    stages on the four fields, from freshly reset instance fields. *)
Lemma hashPosition_fields hashes this :
  hashPosition hashes fen this
  = hashFields hashes pieces color castling enPassant newChessHasher.
Proof.
  unfold hashPosition.
  rewrite fen_accepted, trim_fen, split_fen, fields_nonempty.
  reflexivity.
Qed.

End Fields.

Lemma hashPosition_rejected hashes fen this :
  RegExp.test validFenPattern fen = false ->
  hashPosition hashes fen this = (Ret wrongPosition, newChessHasher).
Proof.
  intros H. unfold hashPosition. rewrite H. reflexivity.
Qed.

(** ** The stages, as one expression *)

Lemma parseEnPassant_returns str this :
  fst (parseEnPassant str this) = Ret tt.
Proof.
  unfold parseEnPassant.
  destruct (String.eqb str "" || String.eqb str "-"); [reflexivity|].
  destruct (negb (JS.length str =? 2)); [reflexivity|].
  destruct (JS.charCodeAt str 0), (JS.charCodeAt str 1); try reflexivity.
  match goal with |- context [if ?b then _ else _] => destruct b end;
    reflexivity.
Qed.

Section Stages.
Variable hashes : list string.

Lemma hashFields_expected pieces color castling enPassant :
  List.length (JS.split "/" pieces) = 8%nat ->
  forallb (allChars recognized) (JS.split "/" pieces) = true ->
  match hashFields hashes pieces color castling enPassant newChessHasher with
  | (Ret out, this') =>
      expected hashes pieces color castling enPassant = Ret out
      /\ this' = decoded pieces enPassant
  | (Throw e, _) =>
      expected hashes pieces color castling enPassant = Throw e
  end.
Proof.
  intros L Hr. unfold hashFields, expected, decoded, afterEnPassant.
  unfold bind, get, lift, ret.
  pose proof (parseEnPassant_returns enPassant newChessHasher) as P.
  destruct (parseEnPassant enPassant newChessHasher) as [o this1].
  simpl in P. subst o. cbn [snd].
  pose proof (hashPieces_spec hashes emptyHash pieces this1 L Hr) as A.
  destruct (hashPieces hashes emptyHash pieces this1) as [[board|e] this2];
    unfold agrees in A.
  - destruct A as (board' & E & <- & ->). rewrite E. cbn [bindO].
    set (st := decodedState this1 (placements pieces) _).
    unfold enPassantStage, finish.
    destruct (pawnNearby st).
    + destruct (xorHash hashes board (772 + enPasFile st)) as [h1|e];
        cbn [bindO]; [|reflexivity].
      destruct (hashSide hashes h1 color) as [h2|e];
        cbn [bindO]; [|reflexivity].
      destruct (hashCastling hashes h2 castling) as [h3|e];
        cbn [bindO]; [|reflexivity].
      auto.
    + cbn [bindO].
      destruct (hashSide hashes board color) as [h2|e];
        cbn [bindO]; [|reflexivity].
      destruct (hashCastling hashes h2 castling) as [h3|e];
        cbn [bindO]; [|reflexivity].
      auto.
  - rewrite A. reflexivity.
Qed.

(** [hashPosition] on an accepted string, whatever the instance went
    through before. *)
Theorem hashPosition_expected ranks color castling enPassant half full this :
  fieldsOk ranks color castling enPassant half full = true ->
  let pieces := joinWith "/" ranks in
  let run := hashPosition hashes
               (fenOf pieces color castling enPassant half full) this in
  fst run = expected hashes pieces color castling enPassant
  /\ (forall out, fst run = Ret out -> snd run = decoded pieces enPassant).
Proof.
  intros Hok pieces run. subst run. unfold pieces.
  rewrite (hashPosition_fields _ _ _ _ _ _ Hok hashes this).
  pose proof (split_pieces _ _ _ _ _ _ Hok) as S. fold pieces in S |- *.
  assert (E := hashFields_expected pieces color castling enPassant).
  rewrite S in E.
  specialize (E (proj1 (fieldsOk_inv _ _ _ _ _ _ Hok))
                (ranks_recognized _ _ _ _ _ _ Hok)).
  destruct (hashFields hashes pieces color castling enPassant _)
    as [[out|e] t]; simpl.
  - destruct E as [E1 E2]. split; [now rewrite E1 | now intros].
  - split; [now rewrite E | discriminate].
Qed.

End Stages.

(** ** The fields of an accepted string are the fields it was built from *)

Lemma split_nonempty sep s : JS.split sep s <> [].
Proof.
  destruct s as [|c s]; simpl; [discriminate|].
  destruct (Ascii.eqb c sep); [discriminate|].
  destruct (JS.split sep s); discriminate.
Qed.

Lemma split_append_any sep a b :
  JS.split sep (a ++ String sep b) = (JS.split sep a ++ JS.split sep b)%list.
Proof.
  induction a as [|c a IH]; simpl.
  - now rewrite Ascii.eqb_refl.
  - destruct (Ascii.eqb c sep).
    + now rewrite IH.
    + rewrite IH. destruct (JS.split sep a) eqn:E; [|reflexivity].
      now apply split_nonempty in E.
Qed.

Lemma split_single sep s : List.length (JS.split sep s) = 1%nat ->
  JS.split sep s = [s].
Proof.
  induction s as [|c s IH]; simpl; [reflexivity|].
  destruct (Ascii.eqb c sep).
  - simpl. intros [= H]. destruct (JS.split sep s) eqn:E; [|discriminate].
    now apply split_nonempty in E.
  - destruct (JS.split sep s) as [|hd tl] eqn:E.
    + now apply split_nonempty in E.
    + simpl. intros [= H]. destruct tl; [|discriminate].
      specialize (IH eq_refl). now injection IH as ->.
Qed.

Lemma accepted_fields pieces color castling enPassant half full :
  RegExp.test validFenPattern
    (fenOf pieces color castling enPassant half full) = true ->
  exists ranks, pieces = joinWith "/" ranks
                /\ fieldsOk ranks color castling enPassant half full = true.
Proof.
  intros H. apply FenShape.validFenPattern_spec in H
    as (ranks & c & k & e & h & f & E & Hok).
  pose proof (split_fen _ _ _ _ _ _ Hok) as S. rewrite <- E in S.
  unfold fenOf in S. cbn [append] in S.
  rewrite !split_append_any in S.
  assert (L := f_equal (@List.length string) S).
  rewrite !length_app in L. simpl in L.
  pose proof (split_nonempty " " pieces) as N1.
  pose proof (split_nonempty " " color) as N2.
  pose proof (split_nonempty " " castling) as N3.
  pose proof (split_nonempty " " enPassant) as N4.
  pose proof (split_nonempty " " half) as N5.
  pose proof (split_nonempty " " full) as N6.
  assert (forall l : list string, l <> [] -> (1 <= List.length l)%nat) as P
      by (intros [|? ?] ?; simpl; [congruence | lia]).
  apply P in N1, N2, N3, N4, N5, N6.
  rewrite (split_single " " pieces), (split_single " " color),
    (split_single " " castling), (split_single " " enPassant),
    (split_single " " half), (split_single " " full) in S by lia.
  simpl in S. injection S as -> -> -> -> -> ->.
  now exists ranks.
Qed.

(** * Properties of [hashPosition] *)

Lemma hashPosition_reset hashes fen this :
  hashPosition hashes fen this = hashPosition hashes fen newChessHasher.
Proof. reflexivity. Qed.

(** C6. [hashPosition] is free of cross-call state: for a fixed table and
    string, the call gives the same result and leaves the same fields from
    any two states of the instance, and after any series of earlier calls
    on the instance it returns what it returns on a new instance. *)
Theorem hashPosition_call_local (hashes : list string) (fen : string) :
  (forall this1 this2,
      hashPosition hashes fen this1 = hashPosition hashes fen this2)
  /\ (forall earlier this,
         fst (hashPosition hashes fen (afterCalls hashes earlier this))
         = fst (hashPosition hashes fen newChessHasher)).
Proof.
  split.
  - intros this1 this2.
    now rewrite (hashPosition_reset hashes fen this1),
                (hashPosition_reset hashes fen this2).
  - intros earlier this. now rewrite hashPosition_reset.
Qed.

Lemma finish_error hashes color castling hash out :
  finish hashes color castling true hash = Ret out -> out = wrongPosition.
Proof.
  unfold finish. destruct (hashSide hashes hash color); [|discriminate].
  simpl. destruct (hashCastling hashes a castling); [|discriminate].
  simpl. congruence.
Qed.

(** What it takes for the stages to return a hash. *)
Lemma expected_hash hashes pieces color castling enPassant out :
  expected hashes pieces color castling enPassant = Ret out ->
  out <> wrongPosition ->
  exists board,
    xorAll hashes emptyHash (map tableIndex (placements pieces)) = Ret board
    /\ error (decoded pieces enPassant) = false
    /\ bindO (enPassantStage hashes (decoded pieces enPassant) board)
         (finish hashes color castling false) = Ret out.
Proof.
  unfold expected. intros E Hne.
  destruct (xorAll hashes emptyHash _) as [board|e]; [|discriminate].
  exists board. cbn [bindO] in E.
  destruct (error (decoded pieces enPassant)) eqn:Err; [|auto].
  destruct (enPassantStage hashes _ board) as [h|e]; [|discriminate].
  cbn [bindO] in E. now apply finish_error in E.
Qed.

(** A run of [hashPosition] that returns something else than the
    sentinel is a run on six well-formed fields. *)
Lemma hashPosition_hash_inv hashes fen this out :
  fst (hashPosition hashes fen this) = Ret out ->
  out <> wrongPosition ->
  exists ranks color castling enPassant half full,
    fen = fenOf (joinWith "/" ranks) color castling enPassant half full
    /\ fieldsOk ranks color castling enPassant half full = true.
Proof.
  intros E Hne.
  destruct (RegExp.test validFenPattern fen) eqn:T.
  - now apply FenShape.validFenPattern_spec.
  - rewrite (hashPosition_rejected hashes fen this T) in E.
    simpl in E. congruence.
Qed.

(** C1. On every string for which [hashPosition] returns a hash, the
    board stage is one XOR of [ConstantTable[kindIndex*64 + (7-i)*8 + f]]
    for each piece letter of the placement field, met in row [i] with the
    file counter at [f], in the fixed order of the twelve kinds, a digit
    only advancing the counter ([placements]); the hash returned is the
    outcome of the three later stages on that board hash. *)
Theorem hashPosition_piece_constants (hashes : list string) (fen : string)
  (this : ChessHasher) (out : string) :
  fst (hashPosition hashes fen this) = Ret out ->
  out <> wrongPosition ->
  exists pieces color castling enPassant rest board,
    JS.split " " (JS.trim fen)
    = pieces :: color :: castling :: enPassant :: rest
    /\ xorAll hashes emptyHash (map tableIndex (placements pieces))
       = Ret board
    /\ bindO (enPassantStage hashes (decoded pieces enPassant) board)
         (finish hashes color castling false) = Ret out.
Proof.
  intros E Hne.
  destruct (hashPosition_hash_inv _ _ _ _ E Hne)
    as (ranks & color & castling & ep & half & full & -> & Hok).
  destruct (hashPosition_expected hashes _ _ _ _ _ _ this Hok) as [X _].
  rewrite X in E. apply expected_hash in E as (board & B & _ & F); [|easy].
  exists (joinWith "/" ranks), color, castling, ep, [half; full], board.
  rewrite (trim_fen _ _ _ _ _ _ Hok), (split_fen _ _ _ _ _ _ Hok). auto.
Qed.

(** ** Vectors of the test suite

    The vectors whose result does not depend on the entries of the table
    other than entry 780. *)

Example empty_board_vector :
  fst (hashPosition sampleHashes "8/8/8/8/8/8/8/8 w - - 0 1" newChessHasher)
  = Ret "f8d626aaaf278509".
Proof. vm_compute. reflexivity. Qed.

Example missing_fields_vector :
  fst (hashPosition sampleHashes "rnbqkbnr/pppppppp/8/8/8/8/PPPPPPPP/RNBQKBNR"
         newChessHasher) = Ret wrongPosition.
Proof. vm_compute. reflexivity. Qed.

Example nine_pawns_vector :
  fst (hashPosition sampleHashes
         "rnbqkbnr/ppppppppp/8/8/8/8/PPPPPPPP/RNBQKBNR w KQkq - 0 1"
         newChessHasher) = Ret wrongPosition.
Proof. vm_compute. reflexivity. Qed.

Example seven_ranks_vector :
  fst (hashPosition sampleHashes
         "rnbqkbnr/pppppppp/8/8/8/8/PPPPPPPP w KQkq - 0 1"
         newChessHasher) = Ret wrongPosition.
Proof. vm_compute. reflexivity. Qed.

Example bad_enPassant_vector :
  fst (hashPosition sampleHashes
         "rnbqkbnr/pppppppp/8/8/8/8/PPPPPPPP/RNBQKBNR w KQkq e99 0 1"
         newChessHasher) = Ret wrongPosition.
Proof. vm_compute. reflexivity. Qed.

(** ** Reads outside the table *)

Lemma hashesAt_outside hashes num :
  Z.of_nat (List.length hashes) <= num -> hashesAt hashes num = None.
Proof.
  intros H. unfold hashesAt.
  destruct (num <? 0) eqn:E; [reflexivity|].
  apply nth_error_None. lia.
Qed.

Lemma hashesAt_inside hashes num :
  0 <= num < Z.of_nat (List.length hashes) ->
  exists str, hashesAt hashes num = Some str.
Proof.
  intros H. unfold hashesAt.
  destruct (num <? 0) eqn:E; [lia|].
  destruct (nth_error hashes (Z.to_nat num)) eqn:N; [eauto|].
  apply nth_error_None in N. lia.
Qed.

Lemma xorHash_outside hashes arr num :
  Z.of_nat (List.length hashes) <= num ->
  xorHash hashes arr num = Throw (TypeError num).
Proof. intros H. unfold xorHash. now rewrite hashesAt_outside. Qed.

(** The XORs stop at the first index outside the table. *)
Lemma xorAll_outside hashes pre num post : forall arr,
  Forall (fun n => 0 <= n < Z.of_nat (List.length hashes)) pre ->
  Z.of_nat (List.length hashes) <= num ->
  xorAll hashes arr (pre ++ num :: post) = Throw (TypeError num).
Proof.
  induction pre as [|n pre IH]; intros arr Hpre Hnum; simpl.
  - now rewrite xorHash_outside.
  - inversion Hpre as [|? ? Hn Hpre']; subst.
    unfold xorHash at 1.
    destruct (hashesAt_inside hashes n Hn) as [str ->]. simpl.
    now apply IH.
Qed.

Lemma hashPosition_on_fields hashes fen ranks color castling enPassant
  half full this :
  fen = fenOf (joinWith "/" ranks) color castling enPassant half full ->
  fieldsOk ranks color castling enPassant half full = true ->
  fst (hashPosition hashes fen this)
  = expected hashes (joinWith "/" ranks) color castling enPassant.
Proof.
  intros -> Hok.
  now destruct (hashPosition_expected hashes _ _ _ _ _ _ this Hok).
Qed.

(** A run on the ranks [ranks], with White to move and no castling right
    nor en-passant target, whose board stage reads the indices [pre], all
    in the table, and then the index [num], which is not: what is left to
    prove is that the indices [pre] are in the table. *)
Ltac raises_at hashes ranks pre num :=
  rewrite (hashPosition_on_fields hashes _ ranks "w" "-" "-" "0" "1")
    by reflexivity;
  unfold expected;
  replace (map tableIndex (placements _)) with (pre ++ num :: [])%list
    by (vm_compute; reflexivity);
  rewrite xorAll_outside; [reflexivity | | lia].

(** C2. [hashPosition] does not return on every string: with a table of
    781 entries, on a string that the pattern accepts and whose first rank
    runs to the 25th file, the king is looked up at index
    [11*64 + 7*8 + 24 = 784], the entry is [undefined], and the call
    raises a [TypeError] where [Wrong position] was due. *)
Theorem hashPosition_raises (hashes : list string) (this : ChessHasher) :
  List.length hashes = 781%nat ->
  fst (hashPosition hashes "888K/8/8/8/8/8/8/8 w - - 0 1" this)
  = Throw (TypeError 784).
Proof.
  intros L.
  raises_at hashes ["888K"; "8"; "8"; "8"; "8"; "8"; "8"; "8"]
    (@nil Z) 784.
  constructor.
Qed.

Lemma hashPosition_raises_witness :
  fst (hashPosition sampleHashes "888K/8/8/8/8/8/8/8 w - - 0 1" newChessHasher)
  = Throw (TypeError 784).
Proof. apply hashPosition_raises. reflexivity. Defined.

(** C4. A placement field with a rank that does not sum to eight files
    is not always answered with the sentinel: the first rank of this
    string covers 33 files, and with a table of 781 entries the call
    raises a [TypeError] on index [11*64 + 7*8 + 32 = 792]. *)
Theorem hashPosition_long_rank_not_rejected (hashes : list string)
  (this : ChessHasher) :
  List.length hashes = 781%nat ->
  rankWidth "8888K" = 33
  /\ fst (hashPosition hashes "8888K/8/8/8/8/8/8/8 w - - 0 1" this)
     = Throw (TypeError 792)
  /\ fst (hashPosition hashes "8888K/8/8/8/8/8/8/8 w - - 0 1" this)
     <> Ret wrongPosition.
Proof.
  intros L.
  assert (E : fst (hashPosition hashes "8888K/8/8/8/8/8/8/8 w - - 0 1" this)
              = Throw (TypeError 792)).
  { raises_at hashes ["8888K"; "8"; "8"; "8"; "8"; "8"; "8"; "8"]
      (@nil Z) 792.
    constructor. }
  split; [reflexivity|]. split; [exact E|]. rewrite E. discriminate.
Qed.

Lemma hashPosition_long_rank_not_rejected_witness :
  rankWidth "8888K" = 33
  /\ fst (hashPosition sampleHashes "8888K/8/8/8/8/8/8/8 w - - 0 1"
            newChessHasher) = Throw (TypeError 792)
  /\ fst (hashPosition sampleHashes "8888K/8/8/8/8/8/8/8 w - - 0 1"
            newChessHasher) <> Ret wrongPosition.
Proof. apply hashPosition_long_rank_not_rejected. reflexivity. Defined.

(** C10. The indices read are not all within [0..780]: a rank of 22
    kings on the top row reads the 21 entries 760 to 780 and then index
    [11*64 + 7*8 + 21 = 781], which a table of 781 entries does not
    have. *)
Theorem hashPosition_reads_outside (hashes : list string)
  (this : ChessHasher) :
  List.length hashes = 781%nat ->
  hashesAt hashes 781 = None
  /\ fst (hashPosition hashes
            "KKKKKKKKKKKKKKKKKKKKKK/8/8/8/8/8/8/8 w - - 0 1" this)
     = Throw (TypeError 781).
Proof.
  intros L. split; [apply hashesAt_outside; lia|].
  raises_at hashes
    ["KKKKKKKKKKKKKKKKKKKKKK"; "8"; "8"; "8"; "8"; "8"; "8"; "8"]
    [760; 761; 762; 763; 764; 765; 766; 767; 768; 769; 770; 771; 772;
     773; 774; 775; 776; 777; 778; 779; 780] 781.
  rewrite L. repeat constructor; lia.
Qed.

Lemma hashPosition_reads_outside_witness :
  hashesAt sampleHashes 781 = None
  /\ fst (hashPosition sampleHashes
            "KKKKKKKKKKKKKKKKKKKKKK/8/8/8/8/8/8/8 w - - 0 1" newChessHasher)
     = Throw (TypeError 781).
Proof. apply hashPosition_reads_outside. reflexivity. Defined.

(** ** The castling field *)

(** C7, as stated, fails: the castling field [KK] repeats a letter, and
    the string is hashed. *)
Lemma castling_repeated_letter_accepted :
  ~ castlingClaim sampleHashes "8/8/8/8/8/8/8/8 w KK - 0 1".
Proof.
  intros H. unfold castlingClaim in H. specialize (H "KK" eq_refl eq_refl).
  vm_compute in H. discriminate.
Qed.

(** C7, amended. In a string whose other fields are well formed, the
    pattern accepts the castling field exactly when it is one to four
    characters among [K], [Q], [k], [q] and [-], repeated or mixed as they
    may be; on any other castling field [hashPosition] returns the
    sentinel at once. *)
Theorem castling_field_gate (hashes : list string) (ranks : list string)
  (color castling enPassant half full : string) (this : ChessHasher) :
  fieldsOk ranks color "-" enPassant half full = true ->
  let fen := fenOf (joinWith "/" ranks) color castling enPassant half full in
  RegExp.test validFenPattern fen = betweenOf castlingClass 1 4 castling
  /\ (betweenOf castlingClass 1 4 castling = false ->
      hashPosition hashes fen this = (Ret wrongPosition, newChessHasher)).
Proof.
  intros Hok fen.
  assert (E : RegExp.test validFenPattern fen
              = betweenOf castlingClass 1 4 castling).
  { destruct (betweenOf castlingClass 1 4 castling) eqn:B.
    - apply FenShape.validFenPattern_spec.
      exists ranks, color, castling, enPassant, half, full.
      split; [reflexivity|].
      unfold fieldsOk in *. rewrite !andb_true_iff in *.
      rewrite B. tauto.
    - destruct (RegExp.test validFenPattern fen) eqn:T; [|reflexivity].
      apply accepted_fields in T as (ranks' & _ & Hok').
      apply fieldsOk_inv in Hok' as (_ & _ & _ & Hk & _). congruence. }
  split; [exact E|].
  intros B. apply hashPosition_rejected. now rewrite E.
Qed.

Lemma castling_field_gate_witness :
  RegExp.test validFenPattern "8/8/8/8/8/8/8/8 w KQkqK - 0 1"
  = betweenOf castlingClass 1 4 "KQkqK"
  /\ hashPosition sampleHashes "8/8/8/8/8/8/8/8 w KQkqK - 0 1" newChessHasher
     = (Ret wrongPosition, newChessHasher).
Proof.
  destruct (castling_field_gate sampleHashes
              ["8"; "8"; "8"; "8"; "8"; "8"; "8"; "8"] "w" "KQkqK" "-" "0" "1"
              newChessHasher eq_refl) as [H1 H2].
  split; [exact H1 | apply H2; reflexivity].
Defined.

(** ** The [default] case of the board decoder *)




Lemma hashPosition_piece_constants_witness :
  exists pieces color castling enPassant rest board,
    JS.split " " (JS.trim "8/8/8/8/8/8/8/K7 w - - 0 1")
    = pieces :: color :: castling :: enPassant :: rest
    /\ xorAll sampleHashes emptyHash (map tableIndex (placements pieces))
       = Ret board
    /\ bindO (enPassantStage sampleHashes (decoded pieces enPassant) board)
         (finish sampleHashes color castling false) = Ret "bb136161627687c9".
Proof.
  apply (hashPosition_piece_constants sampleHashes
           "8/8/8/8/8/8/8/K7 w - - 0 1" newChessHasher).
  - vm_compute. reflexivity.
  - discriminate.
Defined.

(** ** The en-passant target and the pawns next to it *)

Lemma positionIn_bounds c l : forall k d,
  positionIn c l k = Some d -> k <= d < k + Z.of_nat (List.length l).
Proof.
  induction l as [|x l IH]; intros k d; simpl; [discriminate|].
  destruct (Ascii.eqb c x).
  - intros [= <-]. lia.
  - intros H. apply IH in H. lia.
Qed.

Lemma rankWidth_nonneg s : 0 <= rankWidth s.
Proof.
  induction s as [|c s IH]; cbn [rankWidth]; [lia|].
  destruct (kindIndex c); [lia|].
  destruct (emptyRun c) as [d|] eqn:E; [|lia].
  apply positionIn_bounds in E. lia.
Qed.

Lemma rankPlacements_files s : forall rank file0 k rank' file,
  In (k, rank', file) (rankPlacements s rank file0) ->
  rank' = rank /\ file0 <= file < file0 + rankWidth s.
Proof.
  induction s as [|c s IH]; intros rank file0 k rank' file;
    cbn [rankPlacements rankWidth]; [simpl; tauto|].
  pose proof (rankWidth_nonneg s) as W.
  destruct (kindIndex c) as [k0|].
  - cbn [In]. intros [[= <- <- <-]|H]; [lia|]. apply IH in H. lia.
  - destruct (emptyRun c) as [d|] eqn:E.
    + apply positionIn_bounds in E. intros H. apply IH in H. lia.
    + intros H. apply IH in H. lia.
Qed.

Lemma boardPlacements_files ranks : forall i k rank file,
  existsb badWidth ranks = false ->
  In (k, rank, file) (boardPlacements ranks i) -> 0 <= file <= 7.
Proof.
  induction ranks as [|s ranks IH]; intros i k rank file; simpl; [tauto|].
  intros B H. apply orb_false_elim in B as [Bs B].
  unfold badWidth in Bs. apply negb_false_iff, Z.eqb_eq in Bs.
  apply in_app_or in H as [H|H].
  - apply rankPlacements_files in H. lia.
  - now apply IH in H.
Qed.

Lemma nearTarget_capturer epRank epFile p :
  nearTarget epRank epFile p = true -> capturer epRank epFile p = true.
Proof.
  destruct p as [[k rank] file]. unfold nearTarget, capturer.
  rewrite !andb_true_iff, !orb_true_iff, !andb_true_iff. tauto.
Qed.

Lemma capturer_nearTarget epRank epFile k rank file :
  0 <= file <= 7 ->
  capturer epRank epFile (k, rank, file) = true ->
  nearTarget epRank epFile (k, rank, file) = true.
Proof.
  unfold nearTarget, capturer. intros F.
  rewrite !andb_true_iff, !orb_true_iff, !andb_true_iff.
  rewrite !Z.eqb_eq, Z.gtb_ltb, !Z.ltb_lt. intros [H [E|E]].
  - split; [exact H|]. left. lia.
  - split; [exact H|]. right. lia.
Qed.

(** On a board whose ranks all cover eight files, the flag that the
    decoder raises is the adjacency of the specification. *)
Lemma nearTarget_capturers epRank epFile pieces :
  existsb badWidth (JS.split "/" pieces) = false ->
  existsb (nearTarget epRank epFile) (placements pieces)
  = negb (match capturers epRank epFile pieces with
          | [] => true
          | _ => false
          end).
Proof.
  intros B. unfold capturers, placements in *.
  pose proof (boardPlacements_files (JS.split "/" pieces) 0) as F.
  induction (boardPlacements (JS.split "/" pieces) 0) as [|p l IH];
    [reflexivity|].
  simpl. destruct p as [[k rank] file].
  destruct (capturer epRank epFile (k, rank, file)) eqn:C.
  - rewrite capturer_nearTarget; [reflexivity | | exact C].
    apply (F k rank file B). now left.
  - destruct (nearTarget epRank epFile (k, rank, file)) eqn:N.
    + apply nearTarget_capturer in N. congruence.
    + simpl. apply IH. intros k' r' f' B' H. apply (F k' r' f' B').
      now right.
Qed.

Lemma nearTarget_unset pl : existsb (nearTarget (-1) (-1)) pl = false.
Proof.
  induction pl as [|[[k rank] file] pl IH]; [reflexivity|].
  simpl. rewrite IH. change (-1 =? 2) with false. change (-1 =? 5) with false.
  now rewrite !andb_false_r.
Qed.

Lemma afterEnPassant_square fl rk :
  isSquare fl rk = true ->
  afterEnPassant (String fl (String rk ""))
  = {| error := false; enPasRank := squareRank rk;
       enPasFile := squareFile fl; pawnNearby := false |}.
Proof.
  unfold isSquare, squareFile, squareRank.
  rewrite !andb_true_iff, !Z.leb_le. intros [[[F1 F2] R1] R2].
  unfold afterEnPassant, parseEnPassant.
  assert (E : String.eqb (String fl (String rk "")) ""
              || String.eqb (String fl (String rk "")) "-" = false).
  { simpl. now destruct (Ascii.eqb fl "-"). }
  rewrite E. cbn [JS.length String.length JS.charCodeAt String.get option_map].
  change (negb (Z.of_nat 2 =? 2)) with false. cbv iota.
  replace (_ || _ || _ || _) with false; [reflexivity|].
  symmetry. rewrite !orb_false_iff, Z.gtb_ltb, !Z.ltb_ge, Z.gtb_ltb, Z.ltb_ge.
  lia.
Qed.

Lemma square_field fl rk :
  isSquare fl rk = true ->
  betweenOf enPassantClass 1 2 (String fl (String rk "")) = true.
Proof.
  unfold isSquare, squareFile, squareRank.
  rewrite !andb_true_iff, !Z.leb_le. intros [[[F1 F2] R1] R2].
  unfold betweenOf, allChars, enPassantClass, RegExp.inClass, existsb,
    RegExp.inRange.
  change (JS.charCode "a") with 97. change (JS.charCode "h") with 104.
  change (JS.charCode "1") with 49. change (JS.charCode "8") with 56.
  replace (97 <=? JS.charCode fl) with true by (symmetry; apply Z.leb_le; lia).
  replace (JS.charCode fl <=? 104) with true
    by (symmetry; apply Z.leb_le; lia).
  replace (49 <=? JS.charCode rk) with true by (symmetry; apply Z.leb_le; lia).
  replace (JS.charCode rk <=? 56) with true by (symmetry; apply Z.leb_le; lia).
  simpl. now rewrite orb_true_r.
Qed.

Lemma fieldsOk_enPassant ranks color castling e e' half full :
  fieldsOk ranks color castling e half full = true ->
  betweenOf enPassantClass 1 2 e' = true ->
  fieldsOk ranks color castling e' half full = true.
Proof.
  unfold fieldsOk. rewrite !andb_true_iff. tauto.
Qed.

Lemma fieldsOk_color ranks color color' castling e half full :
  fieldsOk ranks color castling e half full = true ->
  betweenOf sideClass 1 1 color' = true ->
  fieldsOk ranks color' castling e half full = true.
Proof.
  unfold fieldsOk. rewrite !andb_true_iff. tauto.
Qed.

(** A run that returns a hash, on six fields. *)
Lemma hashPosition_fields_inv hashes pieces color castling enPassant half full
  this out :
  fst (hashPosition hashes
         (fenOf pieces color castling enPassant half full) this) = Ret out ->
  out <> wrongPosition ->
  exists ranks,
    pieces = joinWith "/" ranks
    /\ fieldsOk ranks color castling enPassant half full = true
    /\ expected hashes pieces color castling enPassant = Ret out.
Proof.
  intros E Hne.
  destruct (RegExp.test validFenPattern
              (fenOf pieces color castling enPassant half full)) eqn:T.
  - apply accepted_fields in T as (ranks & -> & Hok).
    exists ranks. repeat split; [exact Hok|].
    now rewrite <- (hashPosition_on_fields hashes _ _ _ _ _ _ _ this
                      eq_refl Hok).
  - rewrite (hashPosition_rejected hashes _ this T) in E.
    simpl in E. congruence.
Qed.

(** [parseEnPassant] leaves the adjacency flag as the reset left it. *)
Lemma afterEnPassant_pawnNearby enPassant :
  pawnNearby (afterEnPassant enPassant) = false.
Proof.
  unfold afterEnPassant, parseEnPassant.
  destruct (String.eqb enPassant "" || String.eqb enPassant "-");
    [reflexivity|].
  destruct (negb (JS.length enPassant =? 2)); [reflexivity|].
  destruct (JS.charCodeAt enPassant 0), (JS.charCodeAt enPassant 1);
    try reflexivity.
  match goal with |- context [if ?b then _ else _] => destruct b end;
    reflexivity.
Qed.

Lemma decoded_dash pieces :
  decoded pieces "-"
  = {| error := existsb badWidth (JS.split "/" pieces);
       enPasRank := -1; enPasFile := -1; pawnNearby := false |}.
Proof.
  unfold decoded. change (afterEnPassant "-") with newChessHasher.
  unfold decodedState. cbn [error enPasRank enPasFile pawnNearby newChessHasher].
  now rewrite nearTarget_unset.
Qed.

Lemma decoded_square pieces fl rk :
  isSquare fl rk = true ->
  decoded pieces (String fl (String rk ""))
  = {| error := existsb badWidth (JS.split "/" pieces);
       enPasRank := squareRank rk; enPasFile := squareFile fl;
       pawnNearby := existsb (nearTarget (squareRank rk) (squareFile fl))
                       (placements pieces) |}.
Proof.
  intros Sq. unfold decoded. rewrite (afterEnPassant_square fl rk Sq).
  reflexivity.
Qed.

(** C3. Take a string that is hashed when its en-passant field is [-],
    and put a target square in that field.  When no capturing pawn of the
    right colour and rank stands next to the target, the hash is the same;
    when one or more do, the hash is the one obtained by XORing
    [ConstantTable[772 + file of the target]] once into the board hash,
    before the side and castling stages. *)
Theorem enPassant_gating (hashes : list string)
  (pieces color castling half full : string) (fl rk : ascii)
  (this this' : ChessHasher) (out0 : string) :
  fst (hashPosition hashes (fenOf pieces color castling "-" half full) this)
  = Ret out0 ->
  out0 <> wrongPosition ->
  isSquare fl rk = true ->
  let fen := fenOf pieces color castling (String fl (String rk "")) half full in
  match capturers (squareRank rk) (squareFile fl) pieces with
  | [] => fst (hashPosition hashes fen this') = Ret out0
  | _ :: _ =>
      exists board,
        xorAll hashes emptyHash (map tableIndex (placements pieces))
        = Ret board
        /\ finish hashes color castling false board = Ret out0
        /\ fst (hashPosition hashes fen this')
           = bindO (xorHash hashes board (772 + squareFile fl))
               (finish hashes color castling false)
  end.
Proof.
  intros E0 Hne Sq fen.
  destruct (hashPosition_fields_inv _ _ _ _ _ _ _ _ _ E0 Hne)
    as (ranks & -> & Hok & X0).
  apply expected_hash in X0 as (board & B & Err & F0); [|exact Hne].
  rewrite decoded_dash in Err, F0. cbn [error] in Err.
  unfold enPassantStage in F0. cbn [pawnNearby bindO] in F0.
  assert (Hok' := fieldsOk_enPassant _ _ _ _ _ _ _ Hok (square_field fl rk Sq)).
  assert (X : fst (hashPosition hashes fen this')
              = bindO (if existsb (nearTarget (squareRank rk) (squareFile fl))
                            (placements (joinWith "/" ranks))
                       then xorHash hashes board (772 + squareFile fl)
                       else Ret board)
                  (finish hashes color castling false)).
  { unfold fen.
    rewrite (hashPosition_on_fields hashes _ _ _ _ _ _ _ this' eq_refl Hok').
    unfold expected. rewrite B. cbn [bindO].
    rewrite (decoded_square _ fl rk Sq). unfold enPassantStage.
    cbn [error pawnNearby enPasFile]. now rewrite Err. }
  rewrite (nearTarget_capturers _ _ _ Err) in X.
  destruct (capturers (squareRank rk) (squareFile fl) (joinWith "/" ranks)).
  - rewrite X. exact F0.
  - exists board. repeat split; [exact B | exact F0 | exact X].
Qed.

Lemma enPassant_gating_witness :
  exists board,
    xorAll sampleHashes emptyHash
      (map tableIndex (placements "4k3/8/8/3Pp3/8/8/8/4K3")) = Ret board
    /\ finish sampleHashes "w" "-" false board = Ret "c76b49ffaa448536"
    /\ fst (hashPosition sampleHashes
              (fenOf "4k3/8/8/3Pp3/8/8/8/4K3" "w" "-" "e6" "0" "1")
              newChessHasher)
       = bindO (xorHash sampleHashes board (772 + squareFile "e"))
           (finish sampleHashes "w" "-" false).
Proof.
  apply (enPassant_gating sampleHashes "4k3/8/8/3Pp3/8/8/8/4K3" "w" "-"
           "0" "1" "e" "6" newChessHasher newChessHasher "c76b49ffaa448536").
  - vm_compute. reflexivity.
  - discriminate.
  - reflexivity.
Defined.

Lemma square_tests fl rk :
  (squareFile fl <? 0) || (squareFile fl >? 7)
  || (squareRank rk <? 0) || (squareRank rk >? 7)
  = negb (isSquare fl rk).
Proof.
  unfold isSquare. rewrite !Z.gtb_ltb.
  destruct (Z.ltb_spec (squareFile fl) 0), (Z.ltb_spec 7 (squareFile fl)),
    (Z.ltb_spec (squareRank rk) 0), (Z.ltb_spec 7 (squareRank rk)),
    (Z.leb_spec 0 (squareFile fl)), (Z.leb_spec (squareFile fl) 7),
    (Z.leb_spec 0 (squareRank rk)), (Z.leb_spec (squareRank rk) 7);
    cbn; try reflexivity; lia.
Qed.

Lemma eqb_dash_long a b r : String.eqb (String a (String b r)) "-" = false.
Proof. cbn [String.eqb]. now destruct (Ascii.eqb a "-"). Qed.

(** [parseEnPassant] by the shape of the field. *)
Lemma parseEnPassant_cases str this :
  parseEnPassant str this
  = (Ret tt,
     match str with
     | EmptyString => this
     | String fl (String rk EmptyString) =>
         if isSquare fl rk
         then set_enPasRank (set_enPasFile this (squareFile fl))
                (squareRank rk)
         else set_error this true
     | _ => if String.eqb str "-" then this else set_error this true
     end).
Proof.
  destruct str as [|a [|b [|c r]]]; [reflexivity| | |].
  - unfold parseEnPassant. cbn [String.eqb orb].
    destruct (Ascii.eqb a "-"); reflexivity.
  - unfold parseEnPassant. rewrite eqb_dash_long. cbn [String.eqb orb].
    change (negb (JS.length (String a (String b "")) =? 2)) with false.
    cbv iota. unfold JS.charCodeAt. cbn [String.get option_map].
    fold (squareFile a). fold (squareRank b).
    rewrite square_tests. now destruct (isSquare a b).
  - unfold parseEnPassant. rewrite eqb_dash_long. cbn [String.eqb orb].
    replace (JS.length (String a (String b (String c r))) =? 2) with false;
      [reflexivity|].
    symmetry. apply Z.eqb_neq. unfold JS.length. cbn [String.length]. lia.
Qed.

Lemma afterEnPassant_no_target enPassant :
  targetOf enPassant = None ->
  enPasRank (afterEnPassant enPassant) = -1
  /\ enPasFile (afterEnPassant enPassant) = -1.
Proof.
  unfold afterEnPassant. rewrite parseEnPassant_cases. cbn [snd].
  destruct enPassant as [|fl [|rk [|c r]]]; cbn [targetOf].
  - auto.
  - destruct (String.eqb (String fl "") "-"); auto.
  - destruct (isSquare fl rk); [discriminate | auto].
  - rewrite eqb_dash_long. auto.
Qed.

(** C8, as stated, fails: after 1. e4 Nf6 2. e5 d5 it is White to move,
    the en-passant field declares d6, and the pawn next to it, on e5, is
    white. *)
Lemma enPassant_pawn_of_side_to_move :
  ~ opponentPawnClaim sampleHashes
      "rnbqkb1r/ppp1pppp/5n2/3pP3/8/8/PPPP1PPP/RNBQKBNR" "w" "KQkq" "d6"
      "0" "3".
Proof.
  intros H. unfold opponentPawnClaim in H.
  apply (H "7f7f5d85be828625" 5 3) with (k := 1) (rank := 4) (file := 4).
  - vm_compute. reflexivity.
  - discriminate.
  - reflexivity.
  - vm_compute. reflexivity.
  - vm_compute. tauto.
  - reflexivity.
  - reflexivity.
Qed.

(** C8, amended. On every string that is hashed, the en-passant constant
    is XORed exactly when the adjacency flag is raised.  When the
    en-passant field declares no square the flag stays down.  When it
    declares one, the target on record is that square, the flag is raised
    exactly when some pawn is adjacent to it, and the colour of such a
    pawn is fixed by the rank of the square: black, on board rank 3, for
    a target on rank 2; white, on board rank 4, for a target on rank 5.
    The side-to-move field is not consulted: with either side in that
    field the flag is the same. *)
Theorem enPassant_pawn_colour (hashes : list string)
  (pieces color castling enPassant half full : string)
  (this : ChessHasher) (out : string) :
  let run := hashPosition hashes
               (fenOf pieces color castling enPassant half full) this in
  fst run = Ret out ->
  out <> wrongPosition ->
  (exists board,
      xorAll hashes emptyHash (map tableIndex (placements pieces)) = Ret board
      /\ bindO (if pawnNearby (snd run)
                then xorHash hashes board (772 + enPasFile (snd run))
                else Ret board)
           (finish hashes color castling false) = Ret out)
  /\ match targetOf enPassant with
     | None => pawnNearby (snd run) = false
     | Some (epRank, epFile) =>
         enPasRank (snd run) = epRank
         /\ enPasFile (snd run) = epFile
         /\ (pawnNearby (snd run) = true
             <-> capturers epRank epFile pieces <> [])
         /\ (forall k rank file,
                In (k, rank, file) (capturers epRank epFile pieces) ->
                (k = 0 /\ epRank = 2 /\ rank = 3
                 \/ k = 1 /\ epRank = 5 /\ rank = 4)
                /\ (file = epFile - 1 \/ file = epFile + 1))
     end
  /\ (forall color' this' out',
         color' = "w" \/ color' = "b" ->
         let run' := hashPosition hashes
                       (fenOf pieces color' castling enPassant half full)
                       this' in
         fst run' = Ret out' ->
         pawnNearby (snd run') = pawnNearby (snd run)).
Proof.
  intros run E Hne. subst run.
  destruct (hashPosition_fields_inv _ _ _ _ _ _ _ _ _ E Hne)
    as (ranks & -> & Hok & X).
  destruct (hashPosition_expected hashes _ _ _ _ _ _ this Hok) as [_ St].
  specialize (St out E). cbv zeta in St. rewrite St.
  apply expected_hash in X as (board & Hboard & Err & F); [|exact Hne].
  set (pieces := joinWith "/" ranks) in *.
  assert (B : existsb badWidth (JS.split "/" pieces) = false).
  { unfold decoded, decodedState in Err. cbn [error] in Err.
    now apply orb_false_elim in Err. }
  split; [|split].
  - exists board. split; [exact Hboard | exact F].
  - destruct (targetOf enPassant) as [[epRank epFile]|] eqn:T.
    + destruct enPassant as [|fl [|rk [|c r]]]; cbn [targetOf] in T;
        try discriminate.
      destruct (isSquare fl rk) eqn:S; [|discriminate].
      injection T as <- <-. rewrite (decoded_square pieces fl rk S).
      cbn [enPasRank enPasFile pawnNearby].
      split; [reflexivity|]. split; [reflexivity|]. split.
      * rewrite (nearTarget_capturers _ _ _ B).
        destruct (capturers (squareRank rk) (squareFile fl) pieces); simpl;
          split; congruence.
      * intros k rank file H. unfold capturers in H.
        apply filter_In in H as [_ H]. unfold capturer in H.
        rewrite !andb_true_iff, !orb_true_iff, !andb_true_iff, !Z.eqb_eq
          in H.
        tauto.
    + unfold decoded, decodedState. cbn [pawnNearby].
      destruct (afterEnPassant_no_target enPassant T) as [-> ->].
      now rewrite afterEnPassant_pawnNearby, nearTarget_unset.
  - intros color' this' out' Hc run' E'. subst run' pieces.
    assert (Hok' : fieldsOk ranks color' castling enPassant half full = true).
    { apply (fieldsOk_color _ _ _ _ _ _ _ Hok).
      destruct Hc as [-> | ->]; reflexivity. }
    destruct (hashPosition_expected hashes _ _ _ _ _ _ this' Hok') as [_ St'].
    specialize (St' out' E'). cbv zeta in St'. now rewrite St'.
Qed.

Lemma enPassant_pawn_colour_witness :
  let pieces := "rnbqkb1r/ppp1pppp/5n2/3pP3/8/8/PPPP1PPP/RNBQKBNR" in
  let run := hashPosition sampleHashes
               (fenOf pieces "w" "KQkq" "d6" "0" "3") newChessHasher in
  (exists board,
      xorAll sampleHashes emptyHash (map tableIndex (placements pieces))
      = Ret board
      /\ bindO (if pawnNearby (snd run)
                then xorHash sampleHashes board (772 + enPasFile (snd run))
                else Ret board)
           (finish sampleHashes "w" "KQkq" false) = Ret "7f7f5d85be828625")
  /\ (enPasRank (snd run) = 5
      /\ enPasFile (snd run) = 3
      /\ (pawnNearby (snd run) = true <-> capturers 5 3 pieces <> [])
      /\ (forall k rank file,
             In (k, rank, file) (capturers 5 3 pieces) ->
             (k = 0 /\ 5 = 2 /\ rank = 3 \/ k = 1 /\ 5 = 5 /\ rank = 4)
             /\ (file = 3 - 1 \/ file = 3 + 1)))
  /\ (forall color' this' out',
         color' = "w" \/ color' = "b" ->
         let run' := hashPosition sampleHashes
                       (fenOf pieces color' "KQkq" "d6" "0" "3") this' in
         fst run' = Ret out' ->
         pawnNearby (snd run') = pawnNearby (snd run)).
Proof.
  apply (enPassant_pawn_colour sampleHashes
           "rnbqkb1r/ppp1pppp/5n2/3pP3/8/8/PPPP1PPP/RNBQKBNR" "w" "KQkq" "d6"
           "0" "3" newChessHasher "7f7f5d85be828625").
  - vm_compute. reflexivity.
  - discriminate.
Defined.

(** ** Tables of well-formed entries: hashes are eight bytes *)

Lemma forall_byte (P : Z -> bool) :
  forallb P allBytes = true -> forall z, 0 <= z < 256 -> P z = true.
Proof.
  intros H z Hz. rewrite forallb_forall in H. apply H.
  rewrite <- (Z2Nat.id z) by lia. apply in_map, in_seq. lia.
Qed.

Lemma isByte_inv n : isByte n = true -> exists z, n = JS.Num z /\ 0 <= z < 256.
Proof.
  destruct n as [z|]; simpl; [|discriminate].
  rewrite andb_true_iff, Z.leb_le, Z.ltb_lt. eauto.
Qed.

Lemma lxor_byte x y : 0 <= x < 256 -> 0 <= y < 256 -> 0 <= Z.lxor x y < 256.
Proof.
  intros Hx Hy.
  assert (A : ((0 <=? Z.lxor x y) && (Z.lxor x y <? 256)) = true).
  { revert y Hy.
    apply (forall_byte (fun y => (0 <=? Z.lxor x y) && (Z.lxor x y <? 256))).
    revert x Hx.
    apply (forall_byte (fun x => forallb (fun y => (0 <=? Z.lxor x y)
                                            && (Z.lxor x y <? 256)) allBytes)).
    vm_compute. reflexivity. }
  rewrite andb_true_iff, Z.leb_le, Z.ltb_lt in A. exact A.
Qed.

Lemma bitxor_bytes x y :
  0 <= x < 256 -> 0 <= y < 256 ->
  JS.bitxor (JS.Num x) (JS.Num y) = JS.Num (Z.lxor x y).
Proof.
  intros Hx Hy. unfold JS.bitxor, JS.toInt32.
  rewrite !Z.mod_small by lia.
  replace (x <? 2 ^ 31) with true by (symmetry; apply Z.ltb_lt; lia).
  replace (y <? 2 ^ 31) with true by (symmetry; apply Z.ltb_lt; lia).
  reflexivity.
Qed.

Lemma xorArrays_isHash8 a b :
  isHash8 a = true -> isHash8 b = true -> isHash8 (xorArrays a b) = true.
Proof.
  unfold isHash8. rewrite !andb_true_iff, !Nat.eqb_eq.
  intros [La Ha] [Lb Hb]. revert b La Lb Hb. generalize 8%nat as n.
  induction a as [|x a IH]; intros n [|y b] La Lb Hb; cbn [xorArrays List.length forallb repeat] in *;
    try (subst n; discriminate); [auto|].
  apply andb_prop in Ha as [Hx Ha], Hb as [Hy Hb].
  apply isByte_inv in Hx as (zx & -> & Bx), Hy as (zy & -> & By).
  destruct n as [|n]; [discriminate|].
  injection La as La. injection Lb as Lb.
  destruct (IH Ha n b La Lb Hb) as [L H].
  rewrite bitxor_bytes, L, H by assumption. split; [reflexivity|].
  rewrite andb_true_r. unfold isByte.
  rewrite andb_true_iff, Z.leb_le, Z.ltb_lt.
  now apply lxor_byte.
Qed.

(** XORing the same constant twice gives the hash back. *)
Lemma xorArrays_twice a k :
  isHash8 a = true -> isHash8 k = true -> xorArrays (xorArrays a k) k = a.
Proof.
  unfold isHash8. rewrite !andb_true_iff, !Nat.eqb_eq.
  intros [La Ha] [Lk Hk]. revert k La Lk Hk. generalize 8%nat as n.
  induction a as [|x a IH]; intros n [|y k] La Lk Hk; cbn [xorArrays List.length forallb repeat] in *;
    try (subst n; discriminate); [reflexivity|].
  apply andb_prop in Ha as [Hx Ha], Hk as [Hy Hk].
  apply isByte_inv in Hx as (zx & -> & Bx), Hy as (zy & -> & By).
  destruct n as [|n]; [discriminate|].
  injection La as La. injection Lk as Lk.
  rewrite (IH Ha n k La Lk Hk).
  rewrite (bitxor_bytes zx zy), bitxor_bytes by (try apply lxor_byte; lia).
  now rewrite Z.lxor_assoc, Z.lxor_nilpotent, Z.lxor_0_r.
Qed.

(** A constant that leaves a hash unchanged is zero. *)
Lemma xorArrays_fixed a k :
  isHash8 a = true -> isHash8 k = true -> xorArrays a k = a ->
  k = emptyHash.
Proof.
  change emptyHash with (repeat (JS.Num 0) 8).
  unfold isHash8. rewrite !andb_true_iff, !Nat.eqb_eq.
  intros [La Ha] [Lk Hk]. revert k La Lk Hk. generalize 8%nat as n.
  induction a as [|x a IH]; intros n [|y k] La Lk Hk; cbn [xorArrays List.length forallb repeat] in *;
    try (subst n; discriminate); [now subst n|].
  apply andb_prop in Ha as [Hx Ha], Hk as [Hy Hk].
  apply isByte_inv in Hx as (zx & -> & Bx), Hy as (zy & -> & By).
  destruct n as [|n]; [discriminate|].
  injection La as La. injection Lk as Lk.
  rewrite bitxor_bytes by lia. intros [= E1 E2].
  cbn [repeat]. rewrite (IH Ha n k La Lk Hk E2). f_equal. f_equal.
  assert (Z.lxor zx (Z.lxor zx zy) = 0) as E by (rewrite E1; apply Z.lxor_nilpotent).
  now rewrite <- Z.lxor_assoc, Z.lxor_nilpotent, Z.lxor_0_l in E.
Qed.

Lemma parseInt16_hex_pair c1 c2 :
  isHexChar c1 = true -> isHexChar c2 = true ->
  isByte (JS.parseInt16 (String c1 (String c2 ""))) = true.
Proof.
  intros H1 H2.
  assert (A : implb (isHexChar c1 && isHexChar c2)
                (isByte (JS.parseInt16 (String c1 (String c2 "")))) = true).
  { clear. revert c2.
    apply (forall_ascii (fun c2 => implb (isHexChar c1 && isHexChar c2)
             (isByte (JS.parseInt16 (String c1 (String c2 "")))))).
    revert c1.
    apply (forall_ascii (fun c1 => forallb (fun c2 =>
             implb (isHexChar c1 && isHexChar c2)
               (isByte (JS.parseInt16 (String c1 (String c2 ""))))) allAscii)).
    vm_compute. reflexivity. }
  now rewrite H1, H2 in A.
Qed.

(** A well-formed entry decodes to eight bytes. *)
Lemma parseHexString_wellFormed s :
  wellFormedEntry s = true -> isHash8 (parseHexString s) = true.
Proof.
  unfold wellFormedEntry. rewrite andb_true_iff, Nat.eqb_eq. intros [L H].
  do 16 (destruct s as [|? s]; [discriminate|]).
  destruct s; [|discriminate]. clear L.
  cbn [allChars] in H. rewrite !andb_true_iff in H.
  unfold isHash8, parseHexString.
  cbn [String.length]. rewrite !parseHexString_loop_step.
  cbn [parseHexString_loop List.length Nat.eqb forallb andb].
  change (2 <=? JS.length "") with false. cbv iota.
  cbn [List.length Nat.eqb forallb andb].
  rewrite !parseInt16_hex_pair by tauto. reflexivity.
Qed.

(** A byte is written as two characters, from which it can be read back. *)
Lemma byteHex_pair z :
  0 <= z < 256 ->
  exists a b, byteHex z = String a (String b "")
              /\ JS.parseInt16 (String a (String b "")) = JS.Num z.
Proof.
  intros Hz.
  assert (A : match byteHex z with
              | String a (String b EmptyString) =>
                  match JS.parseInt16 (String a (String b "")) with
                  | JS.Num z' => z' =? z
                  | JS.NaN => false
                  end
              | _ => false
              end = true).
  { revert z Hz.
    apply (forall_byte (fun z =>
             match byteHex z with
             | String a (String b EmptyString) =>
                 match JS.parseInt16 (String a (String b "")) with
                 | JS.Num z' => z' =? z
                 | JS.NaN => false
                 end
             | _ => false
             end)).
    vm_compute. reflexivity. }
  destruct (byteHex z) as [|a [|b [|? ?]]]; try discriminate.
  exists a, b. split; [reflexivity|].
  destruct (JS.parseInt16 (String a (String b ""))); [|discriminate].
  apply Z.eqb_eq in A. now subst.
Qed.

(** The encoding tells two eight-byte hashes apart. *)
Lemma createHexString_injective h1 h2 :
  isHash8 h1 = true -> isHash8 h2 = true ->
  createHexString h1 = createHexString h2 -> h1 = h2.
Proof.
  unfold isHash8. rewrite !andb_true_iff, !Nat.eqb_eq.
  intros [L1 H1] [L2 H2]. revert h2 L1 L2 H2. generalize 8%nat as n.
  induction h1 as [|x h1 IH]; intros n [|y h2] L1 L2 H2;
    cbn [List.length forallb] in *;
    try (subst n; discriminate); [reflexivity|].
  apply andb_prop in H1 as [Hx H1], H2 as [Hy H2].
  apply isByte_inv in Hx as (zx & -> & Bx), Hy as (zy & -> & By).
  destruct n as [|n]; [discriminate|].
  injection L1 as L1. injection L2 as L2.
  unfold createHexString. cbn [map JS.join fold_right].
  fold (byteHex zx). fold (byteHex zy).
  destruct (byteHex_pair zx Bx) as (a & b & -> & Px).
  destruct (byteHex_pair zy By) as (a' & b' & -> & Py).
  cbn [append]. intros [= -> -> E].
  rewrite Px in Py. injection Py as ->.
  f_equal. now apply (IH H1 n).
Qed.

Section WellFormed.
Variable hashes : list string.
Hypothesis Hwf : wellFormedTable hashes = true.

Lemma hashesAt_wellFormed num str :
  hashesAt hashes num = Some str -> isHash8 (parseHexString str) = true.
Proof.
  unfold hashesAt. destruct (num <? 0); [discriminate|].
  intros H. apply nth_error_In in H.
  unfold wellFormedTable in Hwf. rewrite forallb_forall in Hwf.
  now apply parseHexString_wellFormed, Hwf.
Qed.

Lemma xorHash_isHash8 arr num arr' :
  isHash8 arr = true -> xorHash hashes arr num = Ret arr' ->
  isHash8 arr' = true.
Proof.
  intros Ha. unfold xorHash.
  destruct (hashesAt hashes num) as [str|] eqn:E; [|discriminate].
  intros [= <-]. apply xorArrays_isHash8; [exact Ha|].
  now apply (hashesAt_wellFormed num).
Qed.

Lemma xorAll_isHash8 nums : forall arr arr',
  isHash8 arr = true -> xorAll hashes arr nums = Ret arr' ->
  isHash8 arr' = true.
Proof.
  induction nums as [|n nums IH]; intros arr arr' Ha; cbn [xorAll].
  - now intros [= <-].
  - destruct (xorHash hashes arr n) as [a1|e] eqn:E; [|discriminate].
    cbn [bindO]. apply IH. now apply (xorHash_isHash8 arr n).
Qed.

(** The same XORs on two different hashes give two different hashes. *)
Lemma xorAll_injective nums : forall a b a' b',
  isHash8 a = true -> isHash8 b = true ->
  xorAll hashes a nums = Ret a' -> xorAll hashes b nums = Ret b' ->
  a' = b' -> a = b.
Proof.
  induction nums as [|n nums IH]; intros a b a' b' Ha Hb; cbn [xorAll].
  - now intros [= <-] [= <-].
  - destruct (xorHash hashes a n) as [a1|e] eqn:Ea; [|discriminate].
    destruct (xorHash hashes b n) as [b1|e] eqn:Eb; [|discriminate].
    cbn [bindO]. intros Xa Xb E.
    assert (E1 : a1 = b1).
    { apply (IH a1 b1 a' b'); try assumption.
      - now apply (xorHash_isHash8 a n).
      - now apply (xorHash_isHash8 b n). }
    unfold xorHash in Ea, Eb.
    destruct (hashesAt hashes n) as [str|] eqn:En; [|discriminate].
    injection Ea as Ea. injection Eb as Eb.
    pose proof (hashesAt_wellFormed n str En) as Hk.
    rewrite <- (xorArrays_twice a _ Ha Hk), <- (xorArrays_twice b _ Hb Hk).
    now rewrite Ea, Eb, E1.
Qed.

End WellFormed.

Lemma hashCastling_xorAll hashes arr str :
  hashCastling hashes arr str = xorAll hashes arr (castlingNums str).
Proof.
  unfold hashCastling, castlingNums.
  destruct (String.eqb str "-"); [reflexivity|].
  destruct (JS.includes str "K"), (JS.includes str "Q"),
    (JS.includes str "k"), (JS.includes str "q");
    cbn [app xorAll bindO];
    repeat match goal with
           | |- context [xorHash hashes ?a ?n] =>
               destruct (xorHash hashes a n); cbn [bindO]
           end;
    reflexivity.
Qed.

Lemma enPassantStage_isHash8 hashes st h h' :
  wellFormedTable hashes = true -> isHash8 h = true ->
  enPassantStage hashes st h = Ret h' -> isHash8 h' = true.
Proof.
  intros Hwf Hh. unfold enPassantStage. destruct (pawnNearby st).
  - now apply xorHash_isHash8.
  - now intros [= <-].
Qed.

(** C5. The side stage XORs [ConstantTable[780]] when the side field is
    [w] and does nothing when it is [b]; so, with a table of well-formed
    entries whose entry 780 is not zero, two strings that are hashed and
    differ in the side field only have different hashes. *)
Theorem side_to_move_sensitivity (hashes : list string)
  (pieces castling enPassant half full : string)
  (this1 this2 : ChessHasher) (outW outB : string) :
  wellFormedTable hashes = true ->
  (forall str, hashesAt hashes 780 = Some str ->
               parseHexString str <> emptyHash) ->
  fst (hashPosition hashes
         (fenOf pieces "w" castling enPassant half full) this1) = Ret outW ->
  outW <> wrongPosition ->
  fst (hashPosition hashes
         (fenOf pieces "b" castling enPassant half full) this2) = Ret outB ->
  outB <> wrongPosition ->
  (forall arr, hashSide hashes arr "w" = xorHash hashes arr 780)
  /\ (forall arr, hashSide hashes arr "b" = Ret arr)
  /\ outW <> outB.
Proof.
  intros Hwf H780 EW NW EB NB. split; [reflexivity|]. split; [reflexivity|].
  intros Eq.
  destruct (hashPosition_fields_inv _ _ _ _ _ _ _ _ _ EW NW)
    as (_ & _ & _ & XW).
  destruct (hashPosition_fields_inv _ _ _ _ _ _ _ _ _ EB NB)
    as (_ & _ & _ & XB).
  apply expected_hash in XW as (board & B & _ & FW); [|exact NW].
  apply expected_hash in XB as (board' & B' & _ & FB); [|exact NB].
  rewrite B in B'. injection B' as <-.
  assert (Hb : isHash8 board = true)
    by exact (xorAll_isHash8 hashes Hwf _ emptyHash board eq_refl B).
  destruct (enPassantStage hashes (decoded pieces enPassant) board)
    as [h|e] eqn:EP; [|discriminate].
  pose proof (enPassantStage_isHash8 _ _ _ _ Hwf Hb EP) as Hh.
  cbn [bindO] in FW, FB. unfold finish in FW, FB.
  change (hashSide hashes h "w") with (xorHash hashes h 780) in FW.
  change (hashSide hashes h "b") with (@Ret Hash h) in FB.
  destruct (xorHash hashes h 780) as [hw|e] eqn:Ew; [|discriminate].
  pose proof (xorHash_isHash8 hashes Hwf _ _ _ Hh Ew) as Hhw.
  cbn [bindO] in FW, FB. rewrite hashCastling_xorAll in FW, FB.
  destruct (xorAll hashes hw (castlingNums castling)) as [fw|e] eqn:Cw;
    [|discriminate].
  destruct (xorAll hashes h (castlingNums castling)) as [fb|e] eqn:Cb;
    [|discriminate].
  cbn [bindO] in FW, FB. injection FW as FW. injection FB as FB.
  assert (E : fw = fb).
  { apply createHexString_injective.
    - exact (xorAll_isHash8 hashes Hwf _ hw fw Hhw Cw).
    - exact (xorAll_isHash8 hashes Hwf _ h fb Hh Cb).
    - congruence. }
  apply (xorAll_injective hashes Hwf _ _ _ _ _ Hhw Hh Cw Cb) in E.
  unfold xorHash in Ew.
  destruct (hashesAt hashes 780) as [str|] eqn:E780; [|discriminate].
  injection Ew as Ew. rewrite E in Ew.
  apply (H780 str eq_refl).
  apply (xorArrays_fixed h); [exact Hh | | exact Ew].
  now apply (hashesAt_wellFormed hashes Hwf 780).
Qed.

Lemma sampleHashes_wellFormed : wellFormedTable sampleHashes = true.
Proof. vm_compute. reflexivity. Qed.

Lemma side_to_move_sensitivity_witness :
  (forall arr, hashSide sampleHashes arr "w" = xorHash sampleHashes arr 780)
  /\ (forall arr, hashSide sampleHashes arr "b" = Ret arr)
  /\ "c76b49ffaa448536" <> "3fbd6f550563003f".
Proof.
  apply (side_to_move_sensitivity sampleHashes "4k3/8/8/3Pp3/8/8/8/4K3"
           "-" "-" "0" "1" newChessHasher newChessHasher).
  - vm_compute. reflexivity.
  - intros str H. vm_compute in H. injection H as <-.
    vm_compute. discriminate.
  - vm_compute. reflexivity.
  - discriminate.
  - vm_compute. reflexivity.
  - discriminate.
Defined.

(** ** What holds of the calls that return *)

Lemma byteHex_lower z :
  0 <= z < 256 ->
  String.length (byteHex z) = 2%nat /\ allChars isLowerHex (byteHex z) = true.
Proof.
  intros Hz.
  assert (A : (String.length (byteHex z) =? 2)%nat
              && allChars isLowerHex (byteHex z) = true).
  { revert z Hz.
    apply (forall_byte (fun z => (String.length (byteHex z) =? 2)%nat
                                 && allChars isLowerHex (byteHex z))).
    vm_compute. reflexivity. }
  now rewrite andb_true_iff, Nat.eqb_eq in A.
Qed.

Lemma createHexString_lower h :
  forallb isByte h = true ->
  String.length (createHexString h) = (2 * List.length h)%nat
  /\ allChars isLowerHex (createHexString h) = true.
Proof.
  induction h as [|x h IH]; cbn [forallb List.length]; [now split|].
  intros H. apply andb_prop in H as [Hx H].
  apply isByte_inv in Hx as (z & -> & Bz).
  destruct (IH H) as [L A]. destruct (byteHex_lower z Bz) as [Lz Az].
  change (createHexString (JS.Num z :: h))
    with (byteHex z ++ createHexString h).
  rewrite length_append, allChars_append, Lz, Az, L, A.
  split; [lia | reflexivity].
Qed.

(** The stages after the board return the encoding of eight bytes. *)
Lemma finish_isHash8 hashes color castling h out :
  wellFormedTable hashes = true -> isHash8 h = true ->
  finish hashes color castling false h = Ret out ->
  exists hash, isHash8 hash = true /\ out = createHexString hash.
Proof.
  intros Hwf Hh. unfold finish, hashSide.
  destruct (String.eqb color "w").
  - destruct (xorHash hashes h 780) as [h1|e] eqn:E1; [|discriminate].
    pose proof (xorHash_isHash8 hashes Hwf _ _ _ Hh E1) as H1.
    cbn [bindO]. rewrite hashCastling_xorAll.
    destruct (xorAll hashes h1 (castlingNums castling)) as [h2|e] eqn:E2;
      [|discriminate].
    cbn [bindO]. intros [= <-]. exists h2. split; [|reflexivity].
    exact (xorAll_isHash8 hashes Hwf _ h1 h2 H1 E2).
  - cbn [bindO]. rewrite hashCastling_xorAll.
    destruct (xorAll hashes h (castlingNums castling)) as [h2|e] eqn:E2;
      [|discriminate].
    cbn [bindO]. intros [= <-]. exists h2. split; [|reflexivity].
    exact (xorAll_isHash8 hashes Hwf _ h h2 Hh E2).
Qed.

(** X1. With a table of well-formed entries, a call that returns gives the
    sentinel or the sixteen lowercase hexadecimal digits of an eight-byte
    hash, first byte first. *)
Theorem hashPosition_value_format (hashes : list string) (fen : string)
  (this : ChessHasher) (out : string) :
  wellFormedTable hashes = true ->
  fst (hashPosition hashes fen this) = Ret out ->
  out = wrongPosition
  \/ exists hash, isHash8 hash = true
                  /\ out = createHexString hash
                  /\ String.length out = 16%nat
                  /\ allChars isLowerHex out = true.
Proof.
  intros Hwf E.
  destruct (String.eqb out wrongPosition) eqn:W.
  - left. now apply String.eqb_eq.
  - right. apply String.eqb_neq in W.
    destruct (hashPosition_hash_inv _ _ _ _ E W)
      as (ranks & color & castling & ep & half & full & -> & Hok).
    rewrite (hashPosition_on_fields hashes _ _ _ _ _ _ _ this eq_refl Hok) in E.
    apply expected_hash in E as (board & B & _ & F); [|exact W].
    assert (Hb : isHash8 board = true)
      by exact (xorAll_isHash8 hashes Hwf _ emptyHash board eq_refl B).
    destruct (enPassantStage hashes _ board) as [h|e] eqn:EP; [|discriminate].
    pose proof (enPassantStage_isHash8 _ _ _ _ Hwf Hb EP) as Hh.
    cbn [bindO] in F.
    destruct (finish_isHash8 _ _ _ _ _ Hwf Hh F) as (hash & H8 & ->).
    exists hash. split; [exact H8|]. split; [reflexivity|].
    unfold isHash8 in H8. apply andb_prop in H8 as [L Hbytes].
    apply Nat.eqb_eq in L.
    destruct (createHexString_lower hash Hbytes) as [Len Low].
    rewrite Len, L. auto.
Qed.

Lemma hashPosition_value_format_witness :
  "bb136161627687c9" = wrongPosition
  \/ exists hash, isHash8 hash = true
                  /\ "bb136161627687c9" = createHexString hash
                  /\ String.length "bb136161627687c9" = 16%nat
                  /\ allChars isLowerHex "bb136161627687c9" = true.
Proof.
  apply (hashPosition_value_format sampleHashes
           "8/8/8/8/8/8/8/K7 w - - 0 1" newChessHasher);
    [exact sampleHashes_wellFormed | vm_compute; reflexivity].
Defined.

(** X2. A call that returns on a placement field without eight ranks, with
    a rank that does not cover eight files or with a character that the
    decoder does not recognize, returns the sentinel. *)
Theorem hashPosition_structural_rejection (hashes : list string)
  (fen : string) (this : ChessHasher) (out pieces : string)
  (rest : list string) :
  fst (hashPosition hashes fen this) = Ret out ->
  JS.split " " fen = pieces :: rest ->
  List.length (JS.split "/" pieces) <> 8%nat
  \/ existsb badWidth (JS.split "/" pieces) = true
  \/ forallb (allChars recognized) (JS.split "/" pieces) = false ->
  out = wrongPosition.
Proof.
  intros E S Bad.
  destruct (String.eqb out wrongPosition) eqn:W;
    [now apply String.eqb_eq|]. exfalso.
  apply String.eqb_neq in W.
  destruct (hashPosition_hash_inv _ _ _ _ E W)
    as (ranks & color & castling & ep & half & full & -> & Hok).
  rewrite (split_fen _ _ _ _ _ _ Hok) in S. injection S as <- _.
  rewrite (hashPosition_on_fields hashes _ _ _ _ _ _ _ this eq_refl Hok) in E.
  apply expected_hash in E as (_ & _ & Err & _); [|exact W].
  unfold decoded, decodedState in Err. cbn [error] in Err.
  apply orb_false_elim in Err as [_ Err].
  rewrite (split_pieces _ _ _ _ _ _ Hok) in *.
  destruct Bad as [Bad|[Bad|Bad]].
  - now destruct (fieldsOk_inv _ _ _ _ _ _ Hok).
  - congruence.
  - rewrite (ranks_recognized _ _ _ _ _ _ Hok) in Bad. discriminate.
Qed.

Lemma hashPosition_structural_rejection_witness :
  "Wrong position" = wrongPosition.
Proof.
  apply (hashPosition_structural_rejection sampleHashes
           "ppppppppp/8/8/8/8/8/8/8 w - - 0 1" newChessHasher
           "Wrong position" "ppppppppp/8/8/8/8/8/8/8"
           ["w"; "-"; "-"; "0"; "1"]);
    [vm_compute; reflexivity | reflexivity
    | right; left; vm_compute; reflexivity].
Defined.

Lemma boardPlacements_bounds ranks : forall i k rank file,
  In (k, rank, file) (boardPlacements ranks i) ->
  0 <= k <= 11 /\ 8 - i - Z.of_nat (List.length ranks) <= rank <= 7 - i.
Proof.
  induction ranks as [|s ranks IH]; intros i k rank file;
    cbn [boardPlacements List.length In]; [tauto|].
  intros H. apply in_app_or in H as [H|H].
  - assert (K : 0 <= k <= 11).
    { clear - H. revert H. generalize 0 at 1. generalize (7 - i).
      induction s as [|c s IHs]; intros r f0; cbn [rankPlacements In];
        [tauto|].
      destruct (kindIndex c) as [k0|] eqn:E.
      - apply positionIn_bounds in E. cbn [pieceOrder List.length] in E.
        intros [[= <- _ _]|H]; [lia | now apply IHs in H].
      - destruct (emptyRun c); intros H; now apply IHs in H. }
    apply rankPlacements_files in H. lia.
  - apply IH in H. lia.
Qed.

Lemma afterEnPassant_range enPassant :
  let st := afterEnPassant enPassant in
  enPasRank st = -1
  \/ (0 <= enPasRank st <= 7 /\ 0 <= enPasFile st <= 7).
Proof.
  unfold afterEnPassant, parseEnPassant.
  destruct (String.eqb enPassant "" || String.eqb enPassant "-");
    [now left|].
  destruct (negb (JS.length enPassant =? 2)); [now left|].
  destruct (JS.charCodeAt enPassant 0) as [c0|],
           (JS.charCodeAt enPassant 1) as [c1|]; try (now left).
  destruct ((c0 - 97 <? 0) || (c0 - 97 >? 7) || (c1 - 49 <? 0)
            || (c1 - 49 >? 7)) eqn:E; [now left|].
  right. rewrite !orb_false_iff, Z.gtb_ltb, !Z.ltb_ge, Z.gtb_ltb, Z.ltb_ge in E.
  cbn. lia.
Qed.



(** * Further properties of the class *)

(** ** The fields through the board decoder *)

Section Frame.
Variable hashes : list string.
Variable P : ChessHasher -> Prop.
Hypothesis P_error : forall t, P t -> P (set_error t true).
Hypothesis P_pawn : forall t p, P t -> P (notePawn p t).

Lemma hashPieces_switch_frame c rank arr file this :
  P this -> P (snd (hashPieces_switch hashes c rank arr file this)).
Proof.
  intros H. rewrite hashPieces_switch_spec.
  destruct (kindIndex c) as [k|]; [|destruct (emptyRun c)].
  - destruct (xorHash hashes arr _); cbn [snd]; auto.
  - exact H.
  - cbn [snd]. auto.
Qed.

Lemma hashPieces_rank_frame s : forall rank arr file this,
  P this -> P (snd (hashPieces_rank hashes s rank arr file this)).
Proof.
  induction s as [|c s IH]; intros rank arr file this H; [exact H|].
  cbn [hashPieces_rank]. unfold bind.
  pose proof (hashPieces_switch_frame c rank arr file this H) as S.
  destruct (hashPieces_switch hashes c rank arr file this) as [[[a f|a]|e] t];
    cbn [snd] in *; auto.
Qed.

Lemma hashPieces_ranks_frame ranks : forall i arr this,
  P this -> P (snd (hashPieces_ranks hashes ranks i arr this)).
Proof.
  induction ranks as [|s ranks IH]; intros i arr this H; [exact H|].
  cbn [hashPieces_ranks]. unfold bind at 1.
  pose proof (hashPieces_rank_frame s (7 - i) arr 0 this H) as S.
  destruct (hashPieces_rank hashes s (7 - i) arr 0 this) as [[[a f|a]|e] t];
    cbn [snd] in *; auto.
  unfold bind, modify, ret. destruct (negb (f =? 8)); apply IH; auto.
Qed.

Lemma hashPieces_frame arr str this :
  P this -> P (snd (hashPieces hashes arr str this)).
Proof.
  intros H. unfold hashPieces.
  destruct (negb (Z.of_nat (List.length (JS.split "/" str)) =? 8)).
  - cbn. auto.
  - now apply hashPieces_ranks_frame.
Qed.

End Frame.

(** X4. Whatever the string and the table, and whether it returns or
    throws, [hashPieces] leaves [enPasRank] and [enPasFile] as they were
    and never clears the error flag nor the adjacency flag. *)
Theorem hashPieces_fields_kept (hashes : list string) (arr : Hash)
  (str : string) (this : ChessHasher) :
  let this' := snd (hashPieces hashes arr str this) in
  enPasRank this' = enPasRank this
  /\ enPasFile this' = enPasFile this
  /\ (error this = true -> error this' = true)
  /\ (pawnNearby this = true -> pawnNearby this' = true).
Proof.
  apply (hashPieces_frame hashes
           (fun t => enPasRank t = enPasRank this
                     /\ enPasFile t = enPasFile this
                     /\ (error this = true -> error t = true)
                     /\ (pawnNearby this = true -> pawnNearby t = true))).
  - intros t (H1 & H2 & H3 & H4). cbn. auto.
  - intros t p (H1 & H2 & H3 & H4). unfold notePawn.
    destruct (nearTarget _ _ p); cbn; auto.
  - auto.
Qed.

(** X5. When the target rank on record is neither 2 nor 5 (in
    particular when no target was parsed), [hashPieces] leaves the
    adjacency flag as it was, whatever the string. *)
Theorem hashPieces_no_flag_off_target_ranks (hashes : list string)
  (arr : Hash) (str : string) (this : ChessHasher) :
  enPasRank this <> 2 -> enPasRank this <> 5 ->
  pawnNearby (snd (hashPieces hashes arr str this)) = pawnNearby this.
Proof.
  intros H2 H5.
  apply (hashPieces_frame hashes
           (fun t => enPasRank t = enPasRank this
                     /\ pawnNearby t = pawnNearby this)); [| |auto].
  - intros t [E N]. cbn. auto.
  - intros t [[k rank] file] [E N]. unfold notePawn, nearTarget. rewrite E.
    replace (enPasRank this =? 2) with false
      by (symmetry; now apply Z.eqb_neq).
    replace (enPasRank this =? 5) with false
      by (symmetry; now apply Z.eqb_neq).
    rewrite !andb_false_r. cbn. auto.
Qed.

Lemma hashPieces_no_flag_off_target_ranks_witness :
  pawnNearby (snd (hashPieces sampleHashes emptyHash "8/8/8/3pP3/8/8/8/8"
                     (set_enPasFile (set_enPasRank newChessHasher 3) 4)))
  = pawnNearby (set_enPasFile (set_enPasRank newChessHasher 3) 4).
Proof.
  apply hashPieces_no_flag_off_target_ranks; cbn; lia.
Defined.

(** X6. On eight ranks of recognized characters [hashPieces] decodes
    every rank, also after one whose width is wrong: it XORs one constant
    per piece of the eight ranks, raises the error flag exactly when some
    rank does not cover eight files (or leaves it raised), and raises the
    adjacency flag exactly when some pawn passes one of the two tests. *)
Theorem hashPieces_decodes_every_rank (hashes : list string) (arr : Hash)
  (str : string) (this : ChessHasher) :
  List.length (JS.split "/" str) = 8%nat ->
  forallb (allChars recognized) (JS.split "/" str) = true ->
  match hashPieces hashes arr str this with
  | (Ret out, this') =>
      xorAll hashes arr (map tableIndex (placements str)) = Ret out
      /\ error this' = error this || existsb badWidth (JS.split "/" str)
      /\ pawnNearby this'
         = pawnNearby this
           || existsb (nearTarget (enPasRank this) (enPasFile this))
                (placements str)
  | (Throw e, _) =>
      xorAll hashes arr (map tableIndex (placements str)) = Throw e
  end.
Proof.
  intros L R. pose proof (hashPieces_spec hashes arr str this L R) as A.
  destruct (hashPieces hashes arr str this) as [[out|e] this'];
    unfold agrees in A; [|exact A].
  destruct A as (arr' & E & -> & ->). now rewrite E.
Qed.

Lemma hashPieces_decodes_every_rank_witness :
  match hashPieces sampleHashes emptyHash
          "ppppppppp/8/8/8/8/8/8/K7" newChessHasher with
  | (Ret out, this') =>
      xorAll sampleHashes emptyHash
        (map tableIndex (placements "ppppppppp/8/8/8/8/8/8/K7")) = Ret out
      /\ error this'
         = error newChessHasher
           || existsb badWidth (JS.split "/" "ppppppppp/8/8/8/8/8/8/K7")
      /\ pawnNearby this'
         = pawnNearby newChessHasher
           || existsb (nearTarget (enPasRank newChessHasher)
                         (enPasFile newChessHasher))
                (placements "ppppppppp/8/8/8/8/8/8/K7")
  | (Throw e, _) =>
      xorAll sampleHashes emptyHash
        (map tableIndex (placements "ppppppppp/8/8/8/8/8/8/K7")) = Throw e
  end.
Proof.
  apply (hashPieces_decodes_every_rank sampleHashes emptyHash
           "ppppppppp/8/8/8/8/8/8/K7" newChessHasher); reflexivity.
Defined.

(** ** The pattern and the fields *)

Lemma joinWith_split sep s : joinWith sep (JS.split sep s) = s.
Proof.
  induction s as [|c s IH]; [reflexivity|]. cbn [JS.split].
  pose proof (split_nonempty sep s) as N.
  destruct (Ascii.eqb c sep) eqn:E.
  - apply Ascii.eqb_eq in E as ->.
    rewrite FenShape.joinWith_cons by exact N. now rewrite IH.
  - destruct (JS.split sep s) as [|hd tl]; [congruence|].
    destruct tl as [|x tl].
    + cbn [joinWith] in *. now rewrite IH.
    + rewrite FenShape.joinWith_cons by discriminate.
      rewrite FenShape.joinWith_cons in IH by discriminate.
      cbn [append]. now rewrite IH.
Qed.

(** X7. The pattern of [hashPosition] accepts exactly the strings of six
    fields separated by single spaces, where the first field splits at
    [/] into eight non-empty groups of piece letters and digits 1 to 8,
    the second is one of [w] and [b], the third is one to four characters
    among [KQkq-], the fourth is one or two characters among [a-h1-8-],
    and the last two are non-empty runs of decimal digits. *)
Theorem validFenPattern_language (fen : string) :
  RegExp.test validFenPattern fen = true <->
  exists pieces color castling enPassant half full,
    fen = fenOf pieces color castling enPassant half full
    /\ fieldsOk (JS.split "/" pieces) color castling enPassant half full
       = true.
Proof.
  split.
  - intros H. apply FenShape.validFenPattern_spec in H
      as (ranks & c & k & e & h & f & E & Hok).
    exists (joinWith "/" ranks), c, k, e, h, f. split; [exact E|].
    now rewrite (split_pieces _ _ _ _ _ _ Hok).
  - intros (pieces & c & k & e & h & f & E & Hok).
    apply FenShape.validFenPattern_spec.
    exists (JS.split "/" pieces), c, k, e, h, f.
    now rewrite joinWith_split.
Qed.

(** X8. What follows the pattern test in [hashPosition] and in
    [hashPieces] is settled by the test: on an accepted string [trim]
    changes nothing, the split at the spaces gives six fields, the four
    that are destructured are not empty, and the placement field has
    eight ranks.  So the second check of [hashPosition] and the
    rank-count check of [hashPieces] do not fire in a call of
    [hashPosition]. *)
Theorem accepted_string_fields (fen : string) :
  RegExp.test validFenPattern fen = true ->
  JS.trim fen = fen
  /\ exists pieces color castling enPassant half full,
       JS.split " " fen = [pieces; color; castling; enPassant; half; full]
       /\ pieces <> "" /\ color <> "" /\ castling <> "" /\ enPassant <> ""
       /\ List.length (JS.split "/" pieces) = 8%nat.
Proof.
  intros H. apply FenShape.validFenPattern_spec in H
    as (ranks & c & k & e & h & f & -> & Hok).
  split; [exact (trim_fen _ _ _ _ _ _ Hok)|].
  exists (joinWith "/" ranks), c, k, e, h, f.
  split; [exact (split_fen _ _ _ _ _ _ Hok)|].
  pose proof (fields_nonempty _ _ _ _ _ _ Hok) as N.
  rewrite !orb_false_iff in N. destruct N as [[[N1 N2] N3] N4].
  apply String.eqb_neq in N1, N2, N3, N4.
  rewrite (split_pieces _ _ _ _ _ _ Hok).
  now destruct (fieldsOk_inv _ _ _ _ _ _ Hok) as (L & _).
Qed.

Lemma accepted_string_fields_witness :
  JS.trim "8/8/8/8/8/8/8/8 w - - 0 1" = "8/8/8/8/8/8/8/8 w - - 0 1"
  /\ exists pieces color castling enPassant half full,
       JS.split " " "8/8/8/8/8/8/8/8 w - - 0 1"
       = [pieces; color; castling; enPassant; half; full]
       /\ pieces <> "" /\ color <> "" /\ castling <> "" /\ enPassant <> ""
       /\ List.length (JS.split "/" pieces) = 8%nat.
Proof. apply accepted_string_fields. reflexivity. Defined.

Lemma trimStart_length s :
  (String.length (JS.trimStart s) <= String.length s)%nat.
Proof.
  induction s as [|c s IH]; cbn [JS.trimStart String.length]; [lia|].
  destruct (JS.isWhiteSpace c); cbn [String.length]; lia.
Qed.

Lemma trimEnd_length s :
  (String.length (JS.trimEnd s) <= String.length s)%nat.
Proof.
  induction s as [|c s IH]; cbn [JS.trimEnd String.length]; [lia|].
  destruct (JS.trimEnd s); [destruct (JS.isWhiteSpace c)|];
    cbn [String.length] in *; lia.
Qed.

Lemma trimEnd_last y : forall s c,
  JS.trimEnd y = s ++ String c "" -> JS.isWhiteSpace c = false.
Proof.
  induction y as [|a y IH]; intros s c; cbn [JS.trimEnd].
  - destruct s; discriminate.
  - destruct (JS.trimEnd y) as [|b t] eqn:E.
    + destruct (JS.isWhiteSpace a) eqn:W.
      * destruct s; discriminate.
      * destruct s as [|x s]; cbn [append].
        -- now intros [= <-].
        -- intros [= _ H]. destruct s; discriminate.
    + destruct s as [|x s]; cbn [append]; [discriminate|].
      intros [= _ H]. now apply (IH s c).
Qed.

(** X9. The pattern is tested on the string as given and [trim] is
    applied after it, so white space before or after a string has the
    call answer the sentinel, whatever the rest of the string. *)
Theorem hashPosition_space_around (hashes : list string) (fen : string)
  (c : ascii) (this : ChessHasher) :
  JS.isWhiteSpace c = true ->
  hashPosition hashes (String c fen) this
  = (Ret wrongPosition, newChessHasher)
  /\ hashPosition hashes (fen ++ String c "") this
     = (Ret wrongPosition, newChessHasher).
Proof.
  intros W. split; apply hashPosition_rejected.
  - destruct (RegExp.test validFenPattern (String c fen)) eqn:T;
      [exfalso | reflexivity].
    apply FenShape.validFenPattern_spec in T
      as (ranks & co & k & e & h & f & E & Hok).
    pose proof (trim_fen _ _ _ _ _ _ Hok) as Tr. rewrite <- E in Tr.
    apply (f_equal String.length) in Tr. unfold JS.trim in Tr.
    cbn [JS.trimStart] in Tr. rewrite W in Tr.
    pose proof (trimEnd_length (JS.trimStart fen)).
    pose proof (trimStart_length fen). cbn [String.length] in Tr. lia.
  - destruct (RegExp.test validFenPattern (fen ++ String c "")) eqn:T;
      [exfalso | reflexivity].
    apply FenShape.validFenPattern_spec in T
      as (ranks & co & k & e & h & f & E & Hok).
    pose proof (trim_fen _ _ _ _ _ _ Hok) as Tr. rewrite <- E in Tr.
    apply trimEnd_last in Tr. congruence.
Qed.

Lemma hashPosition_space_around_witness :
  hashPosition sampleHashes " 8/8/8/8/8/8/8/8 w - - 0 1" newChessHasher
  = (Ret wrongPosition, newChessHasher)
  /\ hashPosition sampleHashes ("8/8/8/8/8/8/8/8 w - - 0 1" ++ " ")
       newChessHasher
     = (Ret wrongPosition, newChessHasher).
Proof.
  apply (hashPosition_space_around sampleHashes
           "8/8/8/8/8/8/8/8 w - - 0 1" " "). reflexivity.
Defined.

(** X10. [hashPosition] reads the two move counters in the pattern test
    only: two accepted strings that differ in these two fields alone
    have the same outcome and leave the same instance fields. *)
Theorem hashPosition_ignores_move_counters (hashes : list string)
  (pieces color castling enPassant half full half' full' : string)
  (this this' : ChessHasher) :
  RegExp.test validFenPattern
    (fenOf pieces color castling enPassant half full) = true ->
  plusOf digitClass half' = true ->
  plusOf digitClass full' = true ->
  hashPosition hashes (fenOf pieces color castling enPassant half' full')
    this'
  = hashPosition hashes (fenOf pieces color castling enPassant half full)
      this.
Proof.
  intros T H F. apply accepted_fields in T as (ranks & -> & Hok).
  assert (Hok' : fieldsOk ranks color castling enPassant half' full' = true).
  { destruct (fieldsOk_inv _ _ _ _ _ _ Hok) as (L & R & C & K & E & _ & _).
    unfold fieldsOk. rewrite L, R, C, K, E, H, F. reflexivity. }
  rewrite (hashPosition_fields _ _ _ _ _ _ Hok hashes this).
  now rewrite (hashPosition_fields _ _ _ _ _ _ Hok' hashes this').
Qed.

Lemma hashPosition_ignores_move_counters_witness :
  hashPosition sampleHashes
    (fenOf "8/8/8/8/8/8/8/K7" "w" "-" "-" "49" "120") newChessHasher
  = hashPosition sampleHashes
      (fenOf "8/8/8/8/8/8/8/K7" "w" "-" "-" "0" "1") newChessHasher.
Proof.
  apply hashPosition_ignores_move_counters; reflexivity.
Defined.

(** ** The en-passant field *)

(** X11. [parseEnPassant] always returns.  It leaves the adjacency flag
    alone and never clears the error flag; it raises the error flag
    exactly on a non-empty field that is neither [-] nor a square from
    [a1] to [h8]; and it either leaves the target coordinates as they were
    or sets both, to the file and the rank of that square, within 0..7. *)
Theorem parseEnPassant_effect (str : string) (this : ChessHasher) :
  let run := parseEnPassant str this in
  fst run = Ret tt
  /\ pawnNearby (snd run) = pawnNearby this
  /\ error (snd run)
     = error this || (negb (String.eqb str "") && negb (validTarget str))
  /\ (enPasRank (snd run) = enPasRank this
      /\ enPasFile (snd run) = enPasFile this
      \/ exists fl rk, str = String fl (String rk "")
                       /\ enPasFile (snd run) = squareFile fl
                       /\ enPasRank (snd run) = squareRank rk
                       /\ 0 <= enPasFile (snd run) <= 7
                       /\ 0 <= enPasRank (snd run) <= 7).
Proof.
  cbv zeta. rewrite parseEnPassant_cases. cbn [fst snd].
  split; [reflexivity|].
  destruct str as [|a [|b [|c r]]].
  - cbn. rewrite orb_false_r. auto.
  - unfold validTarget. rewrite orb_false_r.
    destruct (String.eqb (String a "") "-"); cbn;
      rewrite ?orb_false_r, ?orb_true_r; auto.
  - unfold validTarget. rewrite eqb_dash_long.
    cbn [String.eqb orb negb andb].
    destruct (isSquare a b) eqn:S; cbn [negb];
      rewrite ?orb_false_r, ?orb_true_r; cbn; [|auto].
    split; [reflexivity|]. split; [reflexivity|]. right. exists a, b.
    unfold isSquare in S. rewrite !andb_true_iff, !Z.leb_le in S.
    repeat split; lia.
  - unfold validTarget. rewrite !eqb_dash_long.
    cbn. rewrite orb_true_r. auto.
Qed.

Lemma afterEnPassant_error enPassant :
  enPassant <> "" ->
  error (afterEnPassant enPassant) = negb (validTarget enPassant).
Proof.
  intros N. unfold afterEnPassant. rewrite parseEnPassant_cases.
  cbn [snd]. destruct enPassant as [|a [|b [|c r]]]; [congruence| | |].
  - unfold validTarget. rewrite orb_false_r.
    now destruct (String.eqb (String a "") "-").
  - unfold validTarget. rewrite eqb_dash_long.
    cbn [orb]. now destruct (isSquare a b).
  - unfold validTarget. now rewrite !eqb_dash_long.
Qed.

(** ** The algebra of [xorArrays] and [xorHash] *)

Lemma toInt32_range n : - 2 ^ 31 <= JS.toInt32 n < 2 ^ 31.
Proof.
  destruct n as [z|]; cbn [JS.toInt32]; [|lia].
  pose proof (Z.mod_pos_bound z (2 ^ 32) ltac:(lia)) as B. cbv zeta.
  destruct (Z.ltb_spec (z mod 2 ^ 32) (2 ^ 31)); lia.
Qed.

Lemma toInt32_id z : - 2 ^ 31 <= z < 2 ^ 31 -> JS.toInt32 (JS.Num z) = z.
Proof.
  intros R. cbn [JS.toInt32]. cbv zeta.
  destruct (Z.ltb_spec z 0) as [N|N].
  - replace (z mod 2 ^ 32) with (z + 2 ^ 32).
    + destruct (Z.ltb_spec (z + 2 ^ 32) (2 ^ 31)); lia.
    + apply (Z.mod_unique z (2 ^ 32) (-1)); lia.
  - rewrite Z.mod_small by lia.
    destruct (Z.ltb_spec z (2 ^ 31)); lia.
Qed.

Lemma int32_shiftr z :
  - 2 ^ 31 <= z < 2 ^ 31 <-> Z.shiftr z 31 = 0 \/ Z.shiftr z 31 = -1.
Proof.
  rewrite Z.shiftr_div_pow2 by lia.
  pose proof (Z.div_mod z (2 ^ 31) ltac:(lia)) as D.
  pose proof (Z.mod_pos_bound z (2 ^ 31) ltac:(lia)) as B.
  lia.
Qed.

Lemma lxor_int32 x y :
  - 2 ^ 31 <= x < 2 ^ 31 -> - 2 ^ 31 <= y < 2 ^ 31 ->
  - 2 ^ 31 <= Z.lxor x y < 2 ^ 31.
Proof.
  rewrite !int32_shiftr, Z.shiftr_lxor.
  intros [-> | ->] [-> | ->]; cbn; auto.
Qed.

Lemma bitxor_comm a b : JS.bitxor a b = JS.bitxor b a.
Proof. unfold JS.bitxor. now rewrite Z.lxor_comm. Qed.

Lemma bitxor_assoc a b c :
  JS.bitxor (JS.bitxor a b) c = JS.bitxor a (JS.bitxor b c).
Proof.
  unfold JS.bitxor.
  rewrite !toInt32_id by (apply lxor_int32; apply toInt32_range).
  now rewrite Z.lxor_assoc.
Qed.

Lemma xorArrays_comm a : forall b, xorArrays a b = xorArrays b a.
Proof.
  induction a as [|x a IH]; intros [|y b]; cbn [xorArrays];
    [reflexivity..|].
  now rewrite bitxor_comm, IH.
Qed.

Lemma xorArrays_assoc a : forall b c,
  xorArrays (xorArrays a b) c = xorArrays a (xorArrays b c).
Proof.
  induction a as [|x a IH]; intros [|y b] [|z c]; cbn [xorArrays];
    [reflexivity..|].
  now rewrite bitxor_assoc, IH.
Qed.


(** X13. On arrays of integers and [NaN], which are the values that a
    [Hash] of the class holds, [xorArrays] is commutative and
    associative, whatever the lengths of the arrays and the sizes of the
    integers. *)
Theorem xorArrays_commutative_associative (a b c : Hash) :
  xorArrays a b = xorArrays b a
  /\ xorArrays (xorArrays a b) c = xorArrays a (xorArrays b c).
Proof. split; [apply xorArrays_comm | apply xorArrays_assoc]. Qed.

Lemma hashesAt_Some hashes num str :
  hashesAt hashes num = Some str ->
  0 <= num < Z.of_nat (List.length hashes)
  /\ nth_error hashes (Z.to_nat num) = Some str.
Proof.
  unfold hashesAt. destruct (Z.ltb_spec num 0) as [N|N]; [discriminate|].
  intros H. split; [|exact H].
  assert (Some str <> None) as S by discriminate. rewrite <- H in S.
  apply nth_error_Some in S. lia.
Qed.

(** X14. [xorHash] returns exactly on the indices of the table, from 0
    to its length excluded, and then XORs the entry read as bytes; on
    every other index, negative ones too, it throws. *)
Theorem xorHash_table_bounds (hashes : list string) (arr : Hash) (num : Z) :
  (0 <= num < Z.of_nat (List.length hashes) ->
   exists str, nth_error hashes (Z.to_nat num) = Some str
               /\ xorHash hashes arr num
                  = Ret (xorArrays arr (parseHexString str)))
  /\ (~ 0 <= num < Z.of_nat (List.length hashes) ->
      xorHash hashes arr num = Throw (TypeError num)).
Proof.
  unfold xorHash. split.
  - intros R. destruct (hashesAt_inside hashes num R) as [str E].
    rewrite E. exists str. split; [|reflexivity].
    now apply hashesAt_Some in E.
  - intros R. destruct (hashesAt hashes num) as [str|] eqn:E;
      [|reflexivity].
    apply hashesAt_Some in E. tauto.
Qed.

Lemma xorAll_perm hashes nums nums' :
  Permutation nums nums' -> forall arr h,
  xorAll hashes arr nums = Ret h -> xorAll hashes arr nums' = Ret h.
Proof.
  induction 1 as [|x l l' _ IH|x y l|l l' l'' _ IH1 _ IH2]; intros arr h.
  - auto.
  - cbn [xorAll]. destruct (xorHash hashes arr x); cbn [bindO]; auto.
  - cbn [xorAll]. unfold xorHash.
    destruct (hashesAt hashes y) as [sy|]; cbn [bindO]; [|discriminate].
    destruct (hashesAt hashes x) as [sx|]; cbn [bindO]; [|discriminate].
    rewrite !xorArrays_assoc.
    now rewrite (xorArrays_comm (parseHexString sx)).
  - auto.
Qed.

(** X15. The order in which the constants are XORed does not matter:
    two series of [xorHash] calls on the same indices, taken in any
    order, return the same hash when one of them returns. *)
Theorem xorHash_order_irrelevant (hashes : list string) (arr h : Hash)
  (nums nums' : list Z) :
  Permutation nums nums' ->
  (xorAll hashes arr nums = Ret h <-> xorAll hashes arr nums' = Ret h).
Proof.
  intros P. split; apply xorAll_perm; [exact P | now apply Permutation_sym].
Qed.

Lemma xorHash_order_irrelevant_witness :
  xorAll sampleHashes emptyHash [3; 780; 12]
  = Ret (parseHexString "b75b398f5ad48506")
  <-> xorAll sampleHashes emptyHash [780; 12; 3]
      = Ret (parseHexString "b75b398f5ad48506").
Proof.
  apply xorHash_order_irrelevant.
  apply (perm_trans (perm_swap 780 3 [12])).
  apply perm_skip, perm_swap.
Defined.

Lemma xorAll_returns hashes nums : forall arr,
  (exists h, xorAll hashes arr nums = Ret h)
  <-> Forall (fun n => 0 <= n < Z.of_nat (List.length hashes)) nums.
Proof.
  induction nums as [|n nums IH]; intros arr; cbn [xorAll].
  - split; [constructor | now exists arr].
  - unfold xorHash. destruct (hashesAt hashes n) as [str|] eqn:E;
      cbn [bindO].
    + rewrite IH. apply hashesAt_Some in E as [E _]. split.
      * now constructor.
      * now inversion 1.
    + split; [intros [h H]; discriminate|]. inversion 1 as [|? ? R _]; subst.
      destruct (hashesAt_inside hashes n R) as [str E']. congruence.
Qed.

(** ** [parseHexString] and [createHexString] *)

Lemma parseHexString_cons a b rest :
  parseHexString (String a (String b rest))
  = JS.parseInt16 (String a (String b "")) :: parseHexString rest.
Proof.
  unfold parseHexString. cbn [String.length].
  rewrite parseHexString_loop_step. f_equal.
  apply parseHexString_loop_enough; lia.
Qed.

Lemma parseHexString_short c : parseHexString (String c "") = [].
Proof. reflexivity. Qed.

Lemma createHexString_cons x h :
  createHexString (x :: h)
  = JS.padStart2 (JS.toString16 x) ++ createHexString h.
Proof. reflexivity. Qed.

(** X16. [parseHexString] reads one number for each two characters and
    ignores a last character left alone: the result has half as many
    elements as the string has characters, rounded down. *)
Theorem parseHexString_length (s : string) :
  List.length (parseHexString s) = Nat.div2 (String.length s).
Proof.
  assert (G : forall n s, (String.length s <= n)%nat ->
              List.length (parseHexString s) = Nat.div2 (String.length s)).
  { clear s. induction n as [|n IH]; intros s L.
    - destruct s; [reflexivity | cbn in L; lia].
    - destruct s as [|a [|b r]]; [reflexivity..|].
      rewrite parseHexString_cons. cbn [List.length String.length Nat.div2].
      f_equal. apply IH. cbn [String.length] in L. lia. }
  now apply (G (String.length s)).
Qed.

Lemma read_back h :
  forallb isByte h = true -> parseHexString (createHexString h) = h.
Proof.
  induction h as [|x h IH]; cbn [forallb]; [reflexivity|].
  intros H. apply andb_prop in H as [Hx H].
  apply isByte_inv in Hx as (z & -> & Bz).
  rewrite createHexString_cons. fold (byteHex z).
  destruct (byteHex_pair z Bz) as (a & b & -> & P).
  cbn [append]. rewrite parseHexString_cons, P. now rewrite IH.
Qed.

(** X17. [createHexString] writes two characters for each byte of an
    array of bytes, and reading them back with [parseHexString] gives
    the array. *)
Theorem parseHexString_createHexString (h : Hash) :
  forallb isByte h = true ->
  String.length (createHexString h) = (2 * List.length h)%nat
  /\ parseHexString (createHexString h) = h.
Proof.
  intros H. split; [|now apply read_back].
  now destruct (createHexString_lower h H).
Qed.

Lemma parseHexString_createHexString_witness :
  String.length (createHexString [JS.Num 0; JS.Num 10; JS.Num 255])
  = (2 * List.length [JS.Num 0; JS.Num 10; JS.Num 255])%nat
  /\ parseHexString (createHexString [JS.Num 0; JS.Num 10; JS.Num 255])
     = [JS.Num 0; JS.Num 10; JS.Num 255].
Proof. apply parseHexString_createHexString. reflexivity. Defined.

Lemma hex_pair_lower a b :
  isHexChar a = true -> isHexChar b = true ->
  JS.padStart2 (JS.toString16 (JS.parseInt16 (String a (String b ""))))
  = String (lowerChar a) (String (lowerChar b) "").
Proof.
  intros Ha Hb.
  pose proof (forall_ascii (fun a => forallb (fun b =>
                 negb (isHexChar a && isHexChar b)
                 || String.eqb
                      (JS.padStart2
                         (JS.toString16
                            (JS.parseInt16 (String a (String b "")))))
                      (String (lowerChar a) (String (lowerChar b) "")))
                 allAscii) ltac:(vm_compute; reflexivity) a) as A.
  cbv beta in A. rewrite forallb_forall in A.
  assert (I : In b allAscii).
  { unfold allAscii. rewrite <- (ascii_nat_embedding b).
    apply in_map, in_seq. pose proof (nat_ascii_bounded b). lia. }
  specialize (A b I). rewrite Ha, Hb in A. cbn [andb negb orb] in A.
  now apply String.eqb_eq.
Qed.

(** X18. Writing what [parseHexString] read from a string of
    hexadecimal digits of even length gives the string in lowercase; so
    an entry of the table written in capitals is read as its lowercase
    form. *)
Theorem createHexString_parseHexString (s : string) :
  Nat.even (String.length s) = true ->
  allChars isHexChar s = true ->
  createHexString (parseHexString s) = lowerString s.
Proof.
  intros E. apply Nat.even_spec in E as [n E]. revert s E.
  induction n as [|n IH]; intros s E H.
  - destruct s; [reflexivity | cbn in E; lia].
  - destruct s as [|a [|b r]]; cbn [String.length] in E; [lia..|].
    cbn [allChars] in H. apply andb_prop in H as [Ha H].
    apply andb_prop in H as [Hb H].
    rewrite parseHexString_cons, createHexString_cons.
    rewrite (hex_pair_lower a b Ha Hb). cbn [append lowerString].
    rewrite IH; [reflexivity | lia | exact H].
Qed.

Lemma createHexString_parseHexString_witness :
  createHexString (parseHexString "F8D626AAaf278509")
  = lowerString "F8D626AAaf278509".
Proof. apply createHexString_parseHexString; reflexivity. Defined.

(** ** The castling stage *)

Lemma castlingNums_letters str :
  castlingNums str
  = ((if JS.includes str "K" then [768] else [])
     ++ (if JS.includes str "Q" then [769] else [])
     ++ (if JS.includes str "k" then [770] else [])
     ++ (if JS.includes str "q" then [771] else []))%list.
Proof.
  unfold castlingNums. destruct (String.eqb str "-") eqn:E; [|reflexivity].
  apply String.eqb_eq in E as ->. reflexivity.
Qed.

(** X19. [hashCastling] depends on the field only through which of the
    four letters [K], [Q], [k], [q] occur in it: their order, their
    repetition and a [-] among them change nothing. *)
Theorem hashCastling_letters (hashes : list string) (arr : Hash)
  (str str' : string) :
  JS.includes str "K" = JS.includes str' "K" ->
  JS.includes str "Q" = JS.includes str' "Q" ->
  JS.includes str "k" = JS.includes str' "k" ->
  JS.includes str "q" = JS.includes str' "q" ->
  hashCastling hashes arr str = hashCastling hashes arr str'.
Proof.
  intros HK HQ Hk Hq. rewrite !hashCastling_xorAll, !castlingNums_letters.
  now rewrite HK, HQ, Hk, Hq.
Qed.

Lemma hashCastling_letters_witness :
  hashCastling sampleHashes emptyHash "Kq"
  = hashCastling sampleHashes emptyHash "q-KK".
Proof. apply hashCastling_letters; reflexivity. Defined.

(** ** The stages of [hashPosition] as one series of XORs *)

Lemma bindO_Ret {A : Type} (o : outcome A) : bindO o Ret = o.
Proof. now destruct o. Qed.

Lemma finish_nums hashes color castling err h :
  finish hashes color castling err h
  = bindO (xorAll hashes h (sideNums color ++ castlingNums castling))
      (fun h' => Ret (if err then wrongPosition else createHexString h')).
Proof.
  unfold finish, hashSide, sideNums.
  destruct (String.eqb color "w"); cbn [app xorAll bindO].
  - destruct (xorHash hashes h 780); cbn [bindO];
      now rewrite ?hashCastling_xorAll.
  - now rewrite hashCastling_xorAll.
Qed.

Lemma fieldsOk_enPassant_nonempty ranks color castling enPassant half full :
  fieldsOk ranks color castling enPassant half full = true ->
  enPassant <> "".
Proof.
  intros Hok. destruct (fieldsOk_inv _ _ _ _ _ _ Hok)
    as (_ & _ & _ & _ & E & _).
  apply betweenOf_inv in E as [_ E]. intros ->. cbn in E. lia.
Qed.

Lemma decoded_error pieces enPassant :
  enPassant <> "" ->
  error (decoded pieces enPassant)
  = negb (validTarget enPassant)
    || existsb badWidth (JS.split "/" pieces).
Proof.
  intros N. unfold decoded, decodedState. cbn [error].
  now rewrite afterEnPassant_error.
Qed.

Lemma enPassantStage_nums hashes pieces enPassant board :
  existsb badWidth (JS.split "/" pieces) = false ->
  validTarget enPassant = true ->
  enPassantStage hashes (decoded pieces enPassant) board
  = xorAll hashes board (enPassantNums pieces enPassant).
Proof.
  intros B V. unfold validTarget in V. apply orb_prop in V as [V|V].
  - apply String.eqb_eq in V as ->. now rewrite decoded_dash.
  - destruct enPassant as [|fl [|rk [|? ?]]]; try discriminate.
    rewrite decoded_square by exact V.
    unfold enPassantStage, enPassantNums. cbn [pawnNearby enPasFile].
    rewrite nearTarget_capturers by exact B.
    destruct (capturers (squareRank rk) (squareFile fl) pieces);
      cbn [negb xorAll]; [reflexivity|].
    now rewrite bindO_Ret.
Qed.

Lemma expected_nums hashes pieces color castling enPassant :
  enPassant <> "" ->
  existsb badWidth (JS.split "/" pieces) = false ->
  validTarget enPassant = true ->
  expected hashes pieces color castling enPassant
  = bindO (xorAll hashes emptyHash
             (positionNums pieces color castling enPassant))
      (fun h => Ret (createHexString h)).
Proof.
  intros N B V. unfold expected, positionNums.
  rewrite (decoded_error pieces enPassant N), V, B. cbn [negb orb].
  rewrite xorAll_app.
  destruct (xorAll hashes emptyHash (map tableIndex (placements pieces)))
    as [board|e]; cbn [bindO]; [|reflexivity].
  rewrite xorAll_app, (enPassantStage_nums hashes pieces enPassant board B V).
  destruct (xorAll hashes board (enPassantNums pieces enPassant))
    as [h|e]; cbn [bindO]; [|reflexivity].
  apply finish_nums.
Qed.

(** X20. On an accepted string whose ranks cover eight files each and
    whose en-passant field is [-] or a square, [hashPosition] is one
    series of XORs into the zero hash, written out in hexadecimal: one
    constant per piece, then the constant [772 + file] when a capturing
    pawn stands next to the target, then constant 780 for White to move,
    then constants 768 to 771 for the castling letters present.  The call
    throws exactly when one of these XORs does. *)
Theorem hashPosition_closed_form (hashes : list string)
  (pieces color castling enPassant half full : string)
  (this : ChessHasher) :
  RegExp.test validFenPattern
    (fenOf pieces color castling enPassant half full) = true ->
  existsb badWidth (JS.split "/" pieces) = false ->
  validTarget enPassant = true ->
  fst (hashPosition hashes
         (fenOf pieces color castling enPassant half full) this)
  = bindO (xorAll hashes emptyHash
             (positionNums pieces color castling enPassant))
      (fun h => Ret (createHexString h)).
Proof.
  intros T B V. apply accepted_fields in T as (ranks & -> & Hok).
  rewrite (hashPosition_on_fields hashes _ _ _ _ _ _ _ this eq_refl Hok).
  apply expected_nums; [|exact B|exact V].
  exact (fieldsOk_enPassant_nonempty _ _ _ _ _ _ Hok).
Qed.

Lemma hashPosition_closed_form_witness :
  fst (hashPosition sampleHashes
         (fenOf "8/8/8/8/Pp6/8/8/K7" "b" "Kq" "a3" "0" "1") newChessHasher)
  = bindO (xorAll sampleHashes emptyHash
             (positionNums "8/8/8/8/Pp6/8/8/K7" "b" "Kq" "a3"))
      (fun h => Ret (createHexString h)).
Proof. apply hashPosition_closed_form; reflexivity. Defined.

(** A call that returns a hash returns the XOR of the constants of the
    position. *)
Lemma hashed_nums hashes pieces color castling enPassant half full this out :
  fst (hashPosition hashes
         (fenOf pieces color castling enPassant half full) this) = Ret out ->
  out <> wrongPosition ->
  exists h,
    xorAll hashes emptyHash (positionNums pieces color castling enPassant)
    = Ret h
    /\ out = createHexString h.
Proof.
  intros E W.
  destruct (hashPosition_fields_inv _ _ _ _ _ _ _ _ _ E W)
    as (ranks & -> & Hok & X).
  pose proof (fieldsOk_enPassant_nonempty _ _ _ _ _ _ Hok) as N.
  pose proof X as X'.
  apply expected_hash in X' as (_ & _ & Err & _); [|exact W].
  rewrite (decoded_error _ _ N) in Err.
  apply orb_false_elim in Err as [V B]. apply negb_false_iff in V.
  rewrite (expected_nums hashes _ color castling _ N B V) in X.
  destruct (xorAll hashes emptyHash _) as [h|e]; [|discriminate].
  cbn [bindO] in X. injection X as <-. now exists h.
Qed.

Lemma createHexString_not_sentinel h :
  isHash8 h = true -> createHexString h <> wrongPosition.
Proof.
  unfold isHash8. rewrite andb_true_iff, Nat.eqb_eq. intros [L B] E.
  destruct (createHexString_lower h B) as [Len _].
  rewrite E, L in Len. cbn in Len. lia.
Qed.

(** X21. With a table of well-formed entries, a call that returns on an
    accepted string returns the sentinel exactly when some rank does not
    cover eight files or the en-passant field is neither [-] nor a
    square from [a1] to [h8]; nothing else in the string is checked
    after the pattern. *)
Theorem hashPosition_sentinel_iff (hashes : list string)
  (pieces color castling enPassant half full : string)
  (this : ChessHasher) (out : string) :
  wellFormedTable hashes = true ->
  RegExp.test validFenPattern
    (fenOf pieces color castling enPassant half full) = true ->
  fst (hashPosition hashes
         (fenOf pieces color castling enPassant half full) this) = Ret out ->
  (out = wrongPosition
   <-> existsb badWidth (JS.split "/" pieces) = true
       \/ validTarget enPassant = false).
Proof.
  intros Hwf T E. apply accepted_fields in T as (ranks & -> & Hok).
  pose proof (fieldsOk_enPassant_nonempty _ _ _ _ _ _ Hok) as N.
  rewrite (hashPosition_on_fields hashes _ _ _ _ _ _ _ this eq_refl Hok) in E.
  destruct (existsb badWidth (JS.split "/" (joinWith "/" ranks))) eqn:B;
    [|destruct (validTarget enPassant) eqn:V].
  - split; [auto|intros _].
    unfold expected in E. rewrite (decoded_error _ _ N), B, orb_true_r in E.
    destruct (xorAll hashes emptyHash _); [|discriminate].
    cbn [bindO] in E. destruct (enPassantStage hashes _ _); [|discriminate].
    now apply finish_error in E.
  - split; [|intros [?|?]; discriminate]. intros ->. exfalso.
    rewrite (expected_nums hashes _ color castling _ N B V) in E.
    destruct (xorAll hashes emptyHash _) as [h|e] eqn:X; [|discriminate].
    cbn [bindO] in E. injection E as E.
    apply (createHexString_not_sentinel h); [|exact E].
    exact (xorAll_isHash8 hashes Hwf _ emptyHash h eq_refl X).
  - split; [auto|intros _].
    unfold expected in E. rewrite (decoded_error _ _ N), V in E.
    cbn [negb orb] in E.
    destruct (xorAll hashes emptyHash _); [|discriminate].
    cbn [bindO] in E. destruct (enPassantStage hashes _ _); [|discriminate].
    now apply finish_error in E.
Qed.

Lemma hashPosition_sentinel_iff_witness :
  "Wrong position" = wrongPosition
  <-> existsb badWidth (JS.split "/" "8/8/8/8/8/8/8/8") = true
      \/ validTarget "ee" = false.
Proof.
  apply (hashPosition_sentinel_iff sampleHashes "8/8/8/8/8/8/8/8" "w" "-"
           "ee" "0" "1" newChessHasher "Wrong position");
    vm_compute; reflexivity.
Defined.

(** ** When [hashPosition] throws *)

Lemma boardPlacements_file_nonneg ranks : forall i k rank file,
  In (k, rank, file) (boardPlacements ranks i) -> 0 <= file.
Proof.
  induction ranks as [|s ranks IH]; intros i k rank file;
    cbn [boardPlacements In]; [tauto|].
  intros H. apply in_app_or in H as [H|H].
  - apply rankPlacements_files in H. lia.
  - now apply IH in H.
Qed.

Lemma tableIndex_nonneg pieces :
  List.length (JS.split "/" pieces) = 8%nat ->
  Forall (fun num => 0 <= num) (map tableIndex (placements pieces)).
Proof.
  intros L. apply Forall_forall. intros num H.
  apply in_map_iff in H as ([[k rank] file] & <- & H). unfold placements in H.
  pose proof (boardPlacements_file_nonneg _ _ _ _ _ H) as F.
  apply boardPlacements_bounds in H. rewrite L in H.
  unfold tableIndex. lia.
Qed.

Lemma decoded_pawnNearby_file pieces enPassant :
  pawnNearby (decoded pieces enPassant) = true ->
  0 <= enPasFile (decoded pieces enPassant) <= 7.
Proof.
  unfold decoded, decodedState. cbn [pawnNearby enPasFile].
  intros N. apply orb_prop in N as [N|N].
  - rewrite afterEnPassant_pawnNearby in N. discriminate.
  - apply existsb_exists in N as ([[k rank] file] & _ & N).
    pose proof (afterEnPassant_range enPassant) as R. cbv zeta in R.
    unfold nearTarget in N.
    rewrite !andb_true_iff, !orb_true_iff, !andb_true_iff, !Z.eqb_eq in N.
    lia.
Qed.

Lemma finish_returns hashes color castling err h :
  (781 <= List.length hashes)%nat ->
  exists out, finish hashes color castling err h = Ret out.
Proof.
  intros L. rewrite finish_nums.
  destruct (proj2 (xorAll_returns hashes
                     (sideNums color ++ castlingNums castling) h))
    as [h' E].
  { apply Forall_app. split.
    - unfold sideNums. destruct (String.eqb color "w");
        repeat constructor; lia.
    - rewrite castlingNums_letters.
      destruct (JS.includes castling "K"), (JS.includes castling "Q"),
        (JS.includes castling "k"), (JS.includes castling "q");
        cbn [app]; repeat constructor; lia. }
  rewrite E. cbn [bindO]. eauto.
Qed.

Lemma stages_return hashes pieces color castling enPassant board :
  (781 <= List.length hashes)%nat ->
  exists out,
    bindO (enPassantStage hashes (decoded pieces enPassant) board)
      (fun hash => finish hashes color castling
                     (error (decoded pieces enPassant)) hash) = Ret out.
Proof.
  intros L. unfold enPassantStage.
  destruct (pawnNearby (decoded pieces enPassant)) eqn:N.
  - apply decoded_pawnNearby_file in N. unfold xorHash.
    destruct (hashesAt_inside hashes
                (772 + enPasFile (decoded pieces enPassant)))
      as [str ->]; [lia|].
    cbn [bindO]. now apply finish_returns.
  - cbn [bindO]. now apply finish_returns.
Qed.

(** X22. With a table of at least 781 entries, a call on an accepted
    string throws exactly when the board decoder reaches a piece index
    beyond the table, which takes a rank of more than eight files; the
    en-passant, side and castling stages never throw. *)
Theorem hashPosition_throws_iff (hashes : list string)
  (pieces color castling enPassant half full : string)
  (this : ChessHasher) :
  (781 <= List.length hashes)%nat ->
  RegExp.test validFenPattern
    (fenOf pieces color castling enPassant half full) = true ->
  ((exists e, fst (hashPosition hashes
                     (fenOf pieces color castling enPassant half full) this)
              = Throw e)
   <-> Exists (fun num => Z.of_nat (List.length hashes) <= num)
         (map tableIndex (placements pieces))).
Proof.
  intros L T. apply accepted_fields in T as (ranks & -> & Hok).
  rewrite (hashPosition_on_fields hashes _ _ _ _ _ _ _ this eq_refl Hok).
  unfold expected.
  set (idx := map tableIndex (placements (joinWith "/" ranks))).
  assert (Nn : Forall (fun num => 0 <= num) idx).
  { apply tableIndex_nonneg. rewrite (split_pieces _ _ _ _ _ _ Hok).
    now destruct (fieldsOk_inv _ _ _ _ _ _ Hok). }
  split.
  - intros [e E].
    destruct (Exists_dec (fun num => Z.of_nat (List.length hashes) <= num)
                idx (fun x => Z_le_dec (Z.of_nat (List.length hashes)) x))
      as [X|X]; [exact X | exfalso].
    apply Forall_Exists_neg in X.
    destruct (proj2 (xorAll_returns hashes idx emptyHash)) as [board B].
    { rewrite Forall_forall in *. intros n I.
      specialize (X n I). specialize (Nn n I). lia. }
    rewrite B in E. cbn [bindO] in E.
    destruct (stages_return hashes (joinWith "/" ranks) color castling
                enPassant board L) as [out R].
    congruence.
  - intros X.
    destruct (xorAll hashes emptyHash idx) as [board|e] eqn:B.
    + exfalso.
      pose proof (proj1 (xorAll_returns hashes idx emptyHash)
                    (ex_intro _ board B)) as R.
      apply Exists_exists in X as (n & I & X).
      rewrite Forall_forall in R. specialize (R n I). lia.
    + exists e. reflexivity.
Qed.

Lemma hashPosition_throws_iff_witness :
  (exists e, fst (hashPosition sampleHashes
                    (fenOf "888K/8/8/8/8/8/8/8" "w" "-" "-" "0" "1")
                    newChessHasher)
             = Throw e)
  <-> Exists (fun num => Z.of_nat (List.length sampleHashes) <= num)
        (map tableIndex (placements "888K/8/8/8/8/8/8/8")).
Proof.
  apply hashPosition_throws_iff; [vm_compute; lia | reflexivity].
Defined.

(** ** How the hash changes with one field *)

(** X23. With a table of well-formed entries, the hash of a position
    with castling rights is the hash of the same position with the
    castling field [-], XORed with the constants of the letters
    present. *)
Theorem castling_rights_xor (hashes : list string)
  (pieces color castling enPassant half full : string)
  (this : ChessHasher) (out0 out : string) :
  wellFormedTable hashes = true ->
  fst (hashPosition hashes
         (fenOf pieces color "-" enPassant half full) this) = Ret out0 ->
  out0 <> wrongPosition ->
  fst (hashPosition hashes
         (fenOf pieces color castling enPassant half full) this) = Ret out ->
  out <> wrongPosition ->
  xorAll hashes (parseHexString out0) (castlingNums castling)
  = Ret (parseHexString out).
Proof.
  intros Hwf E0 W0 E W.
  apply hashed_nums in E0 as (h0 & X0 & ->); [|exact W0].
  apply hashed_nums in E as (h & X & ->); [|exact W].
  pose proof (xorAll_isHash8 hashes Hwf _ emptyHash h0 eq_refl X0) as H0.
  pose proof (xorAll_isHash8 hashes Hwf _ emptyHash h eq_refl X) as H.
  unfold isHash8 in H0, H. apply andb_prop in H0 as [_ B0], H as [_ B].
  rewrite !read_back by assumption.
  unfold positionNums in X0, X. rewrite !app_assoc in X0, X.
  rewrite xorAll_app in X. cbn [castlingNums String.eqb Ascii.eqb] in X0.
  change (castlingNums "-") with (@nil Z) in X0. rewrite app_nil_r in X0.
  rewrite X0 in X. exact X.
Qed.

Lemma castling_rights_xor_witness :
  xorAll sampleHashes (parseHexString "bb136161627687c9")
    (castlingNums "Kq")
  = Ret (parseHexString "a03a02a853b187ca").
Proof.
  apply (castling_rights_xor sampleHashes "8/8/8/8/8/8/8/K7" "w" "Kq" "-"
           "0" "1" newChessHasher);
    [exact sampleHashes_wellFormed | vm_compute; reflexivity | discriminate
    | vm_compute; reflexivity | discriminate].
Defined.

(** X24. With a table of well-formed entries, the hash of a position
    with White to move is the hash of the same position with Black to
    move, XORed with constant 780. *)
Theorem side_to_move_xor (hashes : list string)
  (pieces castling enPassant half full : string)
  (this : ChessHasher) (outW outB : string) :
  wellFormedTable hashes = true ->
  fst (hashPosition hashes
         (fenOf pieces "w" castling enPassant half full) this) = Ret outW ->
  outW <> wrongPosition ->
  fst (hashPosition hashes
         (fenOf pieces "b" castling enPassant half full) this) = Ret outB ->
  outB <> wrongPosition ->
  xorHash hashes (parseHexString outB) 780 = Ret (parseHexString outW).
Proof.
  intros Hwf EW WW EB WB.
  apply hashed_nums in EW as (hW & XW & ->); [|exact WW].
  apply hashed_nums in EB as (hB & XB & ->); [|exact WB].
  pose proof (xorAll_isHash8 hashes Hwf _ emptyHash hW eq_refl XW) as HW.
  pose proof (xorAll_isHash8 hashes Hwf _ emptyHash hB eq_refl XB) as HB.
  unfold isHash8 in HW, HB. apply andb_prop in HW as [_ BW], HB as [_ BB].
  rewrite !read_back by assumption.
  unfold positionNums in XW, XB.
  change (sideNums "w") with [780] in XW.
  change (sideNums "b") with (@nil Z) in XB. cbn [app] in XB.
  apply (xorAll_perm hashes _
           ((map tableIndex (placements pieces)
             ++ enPassantNums pieces enPassant
             ++ castlingNums castling) ++ [780])%list) in XW.
  - rewrite xorAll_app, XB in XW. cbn [bindO xorAll] in XW.
    now rewrite bindO_Ret in XW.
  - rewrite <- !app_assoc. do 2 apply Permutation_app_head.
    apply (Permutation_app_comm [780]).
Qed.

Lemma side_to_move_xor_witness :
  xorHash sampleHashes (parseHexString "43c547cbcd5102c0") 780
  = Ret (parseHexString "bb136161627687c9").
Proof.
  apply (side_to_move_xor sampleHashes "8/8/8/8/8/8/8/K7" "-" "-" "0" "1"
           newChessHasher);
    [exact sampleHashes_wellFormed | vm_compute; reflexivity | discriminate
    | vm_compute; reflexivity | discriminate].
Defined.

(** X25. With a table of well-formed entries, the hash of a position
    whose en-passant square has a capturing pawn next to it is the hash
    of the same position with the en-passant field [-], XORed with the
    constant [772 + file] of the square. *)
Theorem enPassant_target_xor (hashes : list string)
  (pieces color castling half full : string) (fl rk : ascii)
  (this : ChessHasher) (out0 out : string) :
  wellFormedTable hashes = true ->
  capturers (squareRank rk) (squareFile fl) pieces <> [] ->
  fst (hashPosition hashes
         (fenOf pieces color castling "-" half full) this) = Ret out0 ->
  out0 <> wrongPosition ->
  fst (hashPosition hashes
         (fenOf pieces color castling (String fl (String rk "")) half full)
         this) = Ret out ->
  out <> wrongPosition ->
  xorHash hashes (parseHexString out0) (772 + squareFile fl)
  = Ret (parseHexString out).
Proof.
  intros Hwf C E0 W0 E W.
  apply hashed_nums in E0 as (h0 & X0 & ->); [|exact W0].
  apply hashed_nums in E as (h & X & ->); [|exact W].
  pose proof (xorAll_isHash8 hashes Hwf _ emptyHash h0 eq_refl X0) as H0.
  pose proof (xorAll_isHash8 hashes Hwf _ emptyHash h eq_refl X) as H.
  unfold isHash8 in H0, H. apply andb_prop in H0 as [_ B0], H as [_ B].
  rewrite !read_back by assumption.
  unfold positionNums, enPassantNums in X0, X. cbn [app] in X0.
  destruct (capturers (squareRank rk) (squareFile fl) pieces) as [|p l];
    [congruence|].
  apply (xorAll_perm hashes _
           ((map tableIndex (placements pieces)
             ++ sideNums color ++ castlingNums castling)
            ++ [772 + squareFile fl])%list) in X.
  - rewrite xorAll_app, X0 in X. cbn [bindO xorAll] in X.
    now rewrite bindO_Ret in X.
  - rewrite <- (app_assoc (map tableIndex (placements pieces))).
    apply Permutation_app_head.
    apply (Permutation_app_comm [772 + squareFile fl]).
Qed.

Lemma enPassant_target_xor_witness :
  xorHash sampleHashes (parseHexString "9af2e6c8e2780281")
    (772 + squareFile "a")
  = Ret (parseHexString "85cb653743150185").
Proof.
  apply (enPassant_target_xor sampleHashes "8/8/8/8/Pp6/8/8/K7" "b" "-"
           "0" "1" "a" "3" newChessHasher);
    [exact sampleHashes_wellFormed | vm_compute; discriminate
    | vm_compute; reflexivity | discriminate
    | vm_compute; reflexivity | discriminate].
Defined.
